(** * Evacuation alert feed (pages/EmergencyEvacuation): model and properties

    The component keeps a list of alerts decorated with the current user's
    response, loads it from the backend, updates it optimistically when the
    user answers, reverts on a failed write and prepends alerts announced on
    the realtime channel.  The React state is a record, state setters are
    functions on it, and an async handler is a tree whose nodes are the
    setter calls and the awaited backend requests of the source. *)

From Stdlib Require Import ZArith.
From Stdlib Require PrimFloat.
From stdpp Require Import base option strings list gmap.

Open Scope string_scope.

(** ** Rows of the backend tables (types/database.types.ts) *)

Inductive severity_level := low | medium | high | critical.
Inductive response_type := yes | no.

#[global] Instance response_type_eq_dec : EqDecision response_type.
Proof. solve_decision. Defined.

#[global] Instance severity_level_eq_dec : EqDecision severity_level.
Proof. solve_decision. Defined.

(** [number] of the TypeScript row types: an IEEE double. *)
Definition number : Set := PrimFloat.float.

Module Alert.
Record t := mk {
  created_at : string;
  id : string;
  location : string;
  message : string;
  severity : severity_level;
  title : string;
}.
End Alert.

Module AlertResponseRow.
Record t := mk {
  alert_id : string;
  created_at : string;
  id : Z;
  response : response_type;
  user_id : string;
}.
End AlertResponseRow.

Module Shelter.
Record t := mk {
  address : string;
  capacity : number;
  contact : option string;
  created_at : string;
  current_occupancy : number;
  facilities : option (list string);
  id : string;
  lat : number;
  lng : number;
  name : string;
}.
End Shelter.

(** The authenticated identity handed out by [useAuth]; only [id] is read. *)
Module User.
Record t := mk { id : string }.
End User.

(** [type AlertResponse = Enums<'response_type'>] *)
Definition AlertResponse : Set := response_type.

(** [interface EvacuationAlert extends Alert]: the row (the spread
    [...alert]) together with the two derived fields; [response?] is
    [None] when absent or [undefined]. *)
Module EvacuationAlert.
Record t := mk {
  alert : Alert.t;
  responded : bool;
  response : option AlertResponse;
}.
Definition id (e : t) : string := Alert.id (alert e).
End EvacuationAlert.

(** ** Component state: the six [useState] cells *)

Record ViewState := mkViewState {
  alerts : list EvacuationAlert.t;
  shelters : list Shelter.t;
  loading : bool;
  helpQuery : string;
  querySubmitted : bool;
  error : option string;
}.

Definition initialState : ViewState :=
  {| alerts := []; shelters := []; loading := true; helpQuery := "";
     querySubmitted := false; error := None |}.

(** Setters.  [setAlerts] takes an updater, as in [setAlerts(prev => ...)];
    a plain value [v] is the constant updater. *)
Definition setAlerts (f : list EvacuationAlert.t → list EvacuationAlert.t)
    (s : ViewState) : ViewState :=
  {| alerts := f (alerts s); shelters := shelters s; loading := loading s;
     helpQuery := helpQuery s; querySubmitted := querySubmitted s;
     error := error s |}.

Definition setShelters (v : list Shelter.t) (s : ViewState) : ViewState :=
  {| alerts := alerts s; shelters := v; loading := loading s;
     helpQuery := helpQuery s; querySubmitted := querySubmitted s;
     error := error s |}.

Definition setLoading (v : bool) (s : ViewState) : ViewState :=
  {| alerts := alerts s; shelters := shelters s; loading := v;
     helpQuery := helpQuery s; querySubmitted := querySubmitted s;
     error := error s |}.

Definition setError (v : option string) (s : ViewState) : ViewState :=
  {| alerts := alerts s; shelters := shelters s; loading := loading s;
     helpQuery := helpQuery s; querySubmitted := querySubmitted s;
     error := v |}.

(** ** Backend requests

    A request is what the query builder was asked for; nothing here says
    what the backend does with it.  [Update] and [Delete] are part of the
    client's interface although this component never builds them. *)

Inductive Table := alerts_t | alert_responses_t | shelters_t.

#[global] Instance Table_eq_dec : EqDecision Table.
Proof. solve_decision. Defined.

Definition table_name (t : Table) : string :=
  match t with
  | alerts_t => "alerts"
  | alert_responses_t => "alert_responses"
  | shelters_t => "shelters"
  end.

Definition Row (t : Table) : Type :=
  match t with
  | alerts_t => Alert.t
  | alert_responses_t => AlertResponseRow.t
  | shelters_t => Shelter.t
  end.

Inductive Value :=
| VText (s : string)
| VResponse (r : response_type).

#[global] Instance Value_eq_dec : EqDecision Value.
Proof. solve_decision. Defined.

Inductive Request :=
| Select (t : Table) (columns : string) (eq : list (string * Value))
         (order : option (string * bool))
| Insert (t : Table) (values : list (string * Value))
| Update (t : Table) (values : list (string * Value)) (eq : list (string * Value))
| Delete (t : Table) (eq : list (string * Value)).

#[global] Instance Request_eq_dec : EqDecision Request.
Proof. solve_decision. Defined.

(** [data] of a resolved request: the rows for a select, [null] otherwise
    (no [.select()] is chained after the insert). *)
Definition ReplyData (q : Request) : Type :=
  match q with
  | Select t _ _ _ => list (Row t)
  | _ => unit
  end.

(** [{ data, error }]: exactly one of the two is non-null. *)
Inductive PostgrestResponse (A : Type) :=
| Success (data : A)
| Failure (error : string).
Arguments Success {A} data.
Arguments Failure {A} error.

(** What an [await] yields.  The client reports a failed request in
    [error]; [Rejected] is an exception coming out of the call instead,
    which the [try] of the load provides for. *)
Inductive Outcome (A : Type) :=
| Resolved (r : PostgrestResponse A)
| Rejected.
Arguments Resolved {A} r.
Arguments Rejected {A}.

Definition Reply (q : Request) : Type := Outcome (ReplyData q).

(** ** Async handlers

    An async function body: state-setter calls, awaited requests with the
    code that runs once the request settles, and the end of the function. *)

Inductive Async :=
| Return
| SetState (f : ViewState → ViewState) (k : Async)
| Await (q : Request) (k : Reply q → Async).

Declare Scope async_scope.
Bind Scope async_scope with Async.
Notation "f ;; k" := (SetState f k)
  (at level 100, k at level 200, right associativity) : async_scope.
Open Scope async_scope.

(** [new Map(entries)]: entries are set in order, a later key overwrites. *)
Definition Map_new (entries : list (string * AlertResponse)) : gmap string AlertResponse :=
  foldl (λ m kv, <[kv.1 := kv.2]> m) ∅ entries.

Definition Map_has (m : gmap string AlertResponse) (k : string) : bool :=
  match m !! k with Some _ => true | None => false end.

Definition Map_get (m : gmap string AlertResponse) (k : string) : option AlertResponse :=
  m !! k.

(** *** fetchInitialData *)

Definition select_alerts : Request :=
  Select alerts_t "*" [] (Some ("created_at", false)).

Definition select_alert_responses (user : User.t) : Request :=
  Select alert_responses_t "*" [("user_id", VText (User.id user))] None.

Definition select_shelters : Request :=
  Select shelters_t "*" [] None.

Definition userResponses (responsesData : list AlertResponseRow.t) : gmap string AlertResponse :=
  Map_new (fmap (λ r, (AlertResponseRow.alert_id r, AlertResponseRow.response r)) responsesData).

Definition enrichedAlerts (alertsData : list Alert.t)
    (responsesData : list AlertResponseRow.t) : list EvacuationAlert.t :=
  fmap (λ alert,
         {| EvacuationAlert.alert := alert;
            EvacuationAlert.responded := Map_has (userResponses responsesData) (Alert.id alert);
            EvacuationAlert.response := Map_get (userResponses responsesData) (Alert.id alert) |})
      alertsData.

(** The [finally] block, and the [catch] block followed by it. *)
Definition fetch_finally : Async :=
  setLoading false ;; Return.

Definition fetch_catch : Async :=
  setError (Some "An unexpected error occurred. Please try again later.") ;;
  fetch_finally.

Definition fetchInitialData (user : option User.t) : Async :=
  match user with
  | None => Return
  | Some user =>
    setLoading true ;;
    setError None ;;
    Await select_alerts (λ r1,
      match r1 with
      | Rejected => fetch_catch
      | Resolved alertsR =>
        Await (select_alert_responses user) (λ r2,
          match r2 with
          | Rejected => fetch_catch
          | Resolved responsesR =>
            match alertsR, responsesR with
            | Success alertsData, Success responsesData =>
              setAlerts (λ _, enrichedAlerts alertsData responsesData) ;;
              Await select_shelters (λ r3,
                match r3 with
                | Rejected => fetch_catch
                | Resolved (Failure _) =>
                  setError (Some "Failed to fetch shelters data. Please try again later.") ;;
                  fetch_finally
                | Resolved (Success sheltersData) =>
                  setShelters sheltersData ;;
                  fetch_finally
                end)
            | _, _ =>
              setError (Some "Failed to fetch alerts data. Please try again later.") ;;
              fetch_finally
            end
          end)
      end)
  end.

(** *** The realtime handler: [(payload) => setAlerts(prev => [...])] *)

Definition onAlertInsert (newAlert : Alert.t) : Async :=
  setAlerts (λ prev,
    {| EvacuationAlert.alert := newAlert;
       EvacuationAlert.responded := false;
       EvacuationAlert.response := None |} :: prev) ;;
  Return.

(** *** handleAlertResponse *)

Definition insert_alert_response (alertId : string) (user : User.t)
    (response : AlertResponse) : Request :=
  Insert alert_responses_t
    [("alert_id", VText alertId);
     ("user_id", VText (User.id user));
     ("response", VResponse response)].

Definition markResponded (alertId : string) (response : AlertResponse)
    (prev : list EvacuationAlert.t) : list EvacuationAlert.t :=
  fmap (λ alert,
         if String.eqb (EvacuationAlert.id alert) alertId
         then {| EvacuationAlert.alert := EvacuationAlert.alert alert;
                 EvacuationAlert.responded := true;
                 EvacuationAlert.response := Some response |}
         else alert)
      prev.

Definition revertResponded (alertId : string)
    (prev : list EvacuationAlert.t) : list EvacuationAlert.t :=
  fmap (λ alert,
         if String.eqb (EvacuationAlert.id alert) alertId
         then {| EvacuationAlert.alert := EvacuationAlert.alert alert;
                 EvacuationAlert.responded := false;
                 EvacuationAlert.response := None |}
         else alert)
      prev.

Arguments markResponded : simpl never.
Arguments revertResponded : simpl never.

(** The handler from the point where the insert has settled.  An exception
    out of the [await] is caught by nothing: the handler just ends. *)
Definition handleAlertResponse_settled (alertId : string) (r : Outcome unit) : Async :=
  match r with
  | Resolved (Failure _) =>
    setError (Some "Failed to submit response. Please try again.") ;;
    setAlerts (revertResponded alertId) ;;
    Return
  | Resolved (Success _) => Return
  | Rejected => Return
  end.

Definition handleAlertResponse (user : option User.t) (alertId : string)
    (response : AlertResponse) : Async :=
  match user with
  | None => Return
  | Some user =>
    setAlerts (markResponded alertId response) ;;
    Await (insert_alert_response alertId user response)
          (handleAlertResponse_settled alertId)
  end.

(** ** The running component

    [view] holds the state cells, [channel] the realtime subscription made
    by the effect, [pending] the handlers suspended at an [await] (oldest
    first) and [sent] every request issued so far.  The cells are kept
    after unmount, so that a late write to them would show. *)

Record Channel := mkChannel {
  topic : string;
  event : string;
  schema : string;
  table : string;
}.

Record Pending := mkPending {
  request : Request;
  resume : Reply request → Async;
}.

Record World := mkWorld {
  user : option User.t;
  view : ViewState;
  channel : option Channel;
  pending : list Pending;
  sent : list Request;
}.

Definition with_view (f : ViewState → ViewState) (w : World) : World :=
  {| user := user w; view := f (view w); channel := channel w;
     pending := pending w; sent := sent w |}.

Definition with_channel (c : option Channel) (w : World) : World :=
  {| user := user w; view := view w; channel := c;
     pending := pending w; sent := sent w |}.

Definition with_pending (ps : list Pending) (w : World) : World :=
  {| user := user w; view := view w; channel := channel w;
     pending := ps; sent := sent w |}.

Definition suspend (q : Request) (k : Reply q → Async) (w : World) : World :=
  {| user := user w; view := view w; channel := channel w;
     pending := pending w ++ [mkPending q k]; sent := sent w ++ [q] |}.

(** Run a handler until it ends or reaches its next [await]. *)
Fixpoint run (p : Async) (w : World) : World :=
  match p with
  | Return => w
  | SetState f k => run k (with_view f w)
  | Await q k => suspend q k w
  end.

(** An answer to whatever request is waiting. *)
Definition Answer : Type := ∀ q : Request, Reply q.

Inductive Event :=
| Mount
| Unmount
| Notification (newAlert : Alert.t)
| Click (i : nat) (response : AlertResponse)
| Settle (n : nat) (answer : Answer).

Definition alerts_channel : Channel :=
  {| topic := "realtime alerts"; event := "INSERT"; schema := "public";
     table := table_name alerts_t |}.

(** The effect body: start the load, then subscribe. *)
Definition mount (w : World) : World :=
  with_channel (Some alerts_channel) (run (fetchInitialData (user w)) w).

(** The effect cleanup: [supabase.removeChannel(channel)]. *)
Definition unmount (w : World) : World :=
  with_channel None w.

(** An INSERT on [alerts] reaches the handler only through the channel. *)
Definition notify (newAlert : Alert.t) (w : World) : World :=
  match channel w with
  | Some _ => run (onAlertInsert newAlert) w
  | None => w
  end.

(** The buttons of the [i]-th alert exist when the list is shown
    ([loading] is false) and that alert has [responded] false.  The cards
    are keyed by the alert id: this is the screen when the ids in the list
    are distinct. *)
Definition click (i : nat) (response : AlertResponse) (w : World) : option World :=
  match channel w, loading (view w), alerts (view w) !! i with
  | Some _, false, Some alert =>
    if EvacuationAlert.responded alert then None
    else Some (run (handleAlertResponse (user w) (EvacuationAlert.id alert) response) w)
  | _, _, _ => None
  end.

Definition settle (n : nat) (answer : Answer) (w : World) : option World :=
  match pending w !! n with
  | Some p => Some (run (resume p (answer (request p))) (with_pending (delete n (pending w)) w))
  | None => None
  end.

Definition step (e : Event) (w : World) : option World :=
  match e with
  | Mount => match channel w with None => Some (mount w) | Some _ => None end
  | Unmount => match channel w with Some _ => Some (unmount w) | None => None end
  | Notification newAlert => Some (notify newAlert w)
  | Click i response => click i response w
  | Settle n answer => settle n answer w
  end.

Fixpoint steps (es : list Event) (w : World) : option World :=
  match es with
  | [] => Some w
  | e :: es' => match step e w with Some w' => steps es' w' | None => None end
  end.

Definition initialWorld (user : option User.t) : World :=
  {| user := user; view := initialState; channel := None; pending := []; sent := [] |}.

Definition send (q : Request) (w : World) : World :=
  {| user := user w; view := view w; channel := channel w;
     pending := pending w; sent := sent w ++ [q] |}.

(** Run a handler to its end with no other event in between: each request
    is sent and answered on the spot. *)
Fixpoint complete (p : Async) (answer : Answer) (w : World) : World :=
  match p with
  | Return => w
  | SetState f k => complete k answer (with_view f w)
  | Await q k => complete (k (answer q)) answer (send q w)
  end.

(** The answer that gives each table's select its own outcome and every
    write the outcome [i]. *)
Definition answer_of (a : Outcome (list Alert.t))
    (r : Outcome (list AlertResponseRow.t)) (s : Outcome (list Shelter.t))
    (i : Outcome unit) : Answer :=
  λ q,
    match q return Reply q with
    | Select t c e o =>
      match t return Reply (Select t c e o) with
      | alerts_t => a
      | alert_responses_t => r
      | shelters_t => s
      end
    | Insert _ _ => i
    | Update _ _ _ => i
    | Delete _ _ => i
    end.

Definition failed {A} (o : Outcome A) : bool :=
  match o with
  | Resolved (Success _) => false
  | _ => true
  end.

Definition ids (l : list EvacuationAlert.t) : list string :=
  fmap EvacuationAlert.id l.

(** ** Sample data *)

Module Sample.
Definition user1 : User.t := User.mk "u1".
Definition alert1 : Alert.t :=
  Alert.mk "2025-07-16T12:00:00Z" "a1" "Riverside" "Leave the river bank now" critical "Flood".
Definition alert2 : Alert.t :=
  Alert.mk "2025-07-16T13:00:00Z" "a2" "Hillside" "Landslide warning" high "Landslide".
Definition row1 : AlertResponseRow.t :=
  AlertResponseRow.mk "a1" "2025-07-16T12:05:00Z" 1 yes "u1".
Definition ok : Outcome unit := Resolved (Success ()).
Definition conflict : Outcome unit := Resolved (Failure "duplicate key value").
(** Every fetch succeeds with the given rows, every write succeeds. *)
Definition loads (a : list Alert.t) (r : list AlertResponseRow.t) : Answer :=
  answer_of (Resolved (Success a)) (Resolved (Success r)) (Resolved (Success [])) ok.
(** Every request comes back with an error. *)
Definition refuses : Answer :=
  answer_of (Resolved (Failure "network")) (Resolved (Failure "network"))
            (Resolved (Failure "network")) conflict.
End Sample.

(** ** Properties of the state cells kept by every handler

    [preserves P p]: every setter call of [p] keeps [P]. *)

Fixpoint preserves (P : ViewState → Prop) (p : Async) : Prop :=
  match p with
  | Return => True
  | SetState f k => (∀ s, P s → P (f s)) ∧ preserves P k
  | Await q k => ∀ r, preserves P (k r)
  end.

Definition keeps (P : ViewState → Prop) (w : World) : Prop :=
  P (view w) ∧ ∀ p, p ∈ pending w → ∀ r, preserves P (resume p r).

Definition reachable (w : World) : Prop :=
  ∃ u es, steps es (initialWorld u) = Some w.


(** ** The per-alert client state

    An entry is [Unanswered] while [responded] is false, [Pending] while an
    insert for its alert id is waiting, and [Answered] otherwise.  Entries
    are counted from the tail of the list, where a prepended entry does not
    move them. *)

Module Status.
Inductive t := Unanswered | Pending | Answered.
End Status.

Definition insert_target (q : Request) : option string :=
  match q with
  | Insert alert_responses_t ((_, VText alertId) :: _) => Some alertId
  | _ => None
  end.

Definition pending_ids (w : World) : list string :=
  omap (λ p, insert_target (request p)) (pending w).

Definition status_of (waiting : list string) (e : EvacuationAlert.t) : Status.t :=
  if EvacuationAlert.responded e
  then if bool_decide (EvacuationAlert.id e ∈ waiting) then Status.Pending else Status.Answered
  else Status.Unanswered.

Definition entry (l : list EvacuationAlert.t) (j : nat) : option EvacuationAlert.t :=
  reverse l !! j.

Definition status_at (w : World) (j : nat) : option Status.t :=
  status_of (pending_ids w) <$> entry (alerts (view w)) j.

(** Both list updates of the submit handler set the two derived fields of
    the entries with one id. *)
Definition relabel (x : string) (b : bool) (r : option AlertResponse)
    (l : list EvacuationAlert.t) : list EvacuationAlert.t :=
  (λ alert, if String.eqb (EvacuationAlert.id alert) x
            then {| EvacuationAlert.alert := EvacuationAlert.alert alert;
                    EvacuationAlert.responded := b;
                    EvacuationAlert.response := r |}
            else alert) <$> l.

(** The list and the ids of the waiting inserts fit together. *)
Record fits (l : list EvacuationAlert.t) (waiting : list string) : Prop := {
  fits_once : NoDup waiting;
  fits_listed : ∀ x, x ∈ waiting → x ∈ ids l;
  fits_waiting : ∀ e, e ∈ l → EvacuationAlert.id e ∈ waiting → EvacuationAlert.responded e = true;
  fits_same : ∀ e1 e2, e1 ∈ l → e2 ∈ l → EvacuationAlert.id e1 = EvacuationAlert.id e2 →
              EvacuationAlert.responded e1 = EvacuationAlert.responded e2;
}.

Definition answered (l : list EvacuationAlert.t) (waiting : list string) (j : nat) : Prop :=
  status_of waiting <$> entry l j = Some Status.Answered.

(** ** UI events

    The events a mounted component sees from its user and its requests: a
    click on a button that is shown, the settling of a waiting insert, and
    a notification.  [ok] says which notifications are considered. *)

Definition any_alert : World → Alert.t → Prop := λ _ _, True.

Definition fresh_alert : World → Alert.t → Prop :=
  λ w newAlert, Alert.id newAlert ∉ ids (alerts (view w)).

Inductive ui_step (ok : World → Alert.t → Prop) (w : World) : World → Prop :=
| ui_submit i response w' :
    click i response w = Some w' → ui_step ok w w'
| ui_settled n answer p w' :
    pending w !! n = Some p →
    is_Some (insert_target (request p)) →
    settle n answer w = Some w' →
    ui_step ok w w'
| ui_notified newAlert :
    is_Some (channel w) → ok w newAlert → ui_step ok w (notify newAlert w).

Record coherent (w : World) : Prop := {
  coh_handlers :
    ∀ p x, p ∈ pending w → insert_target (request p) = Some x →
           ∃ u v, p = mkPending (insert_alert_response x u v)
                                (handleAlertResponse_settled x);
  coh_fits : fits (alerts (view w)) (pending_ids w);
}.

Module SampleRun.
(** alert1 answered before the load, alert2 arrives and is answered. *)
Definition loaded : World :=
  with_channel (Some alerts_channel)
    (complete (fetchInitialData (Some Sample.user1))
              (Sample.loads [Sample.alert1] [Sample.row1])
              (initialWorld (Some Sample.user1))).
Definition announced : World := notify Sample.alert2 loaded.
Definition submitted : World :=
  run (handleAlertResponse (Some Sample.user1) "a2" no) announced.
End SampleRun.

(** ** Requests sent to the backend *)

(** [q] is a request the handler sends on some run. *)
Fixpoint may_send (p : Async) (q : Request) : Prop :=
  match p with
  | Return => False
  | SetState _ k => may_send k q
  | Await q' k => q = q' ∨ ∃ r, may_send (k r) q
  end.

Definition sends_only (Q : Request → Prop) (w : World) : Prop :=
  (∀ q, q ∈ sent w → Q q) ∧
  ∀ p, p ∈ pending w → ∀ r q, may_send (resume p r) q → Q q.

(** The shape of every request of the component: a select, or the insert
    of the three columns of a response for the current user. *)
Definition read_or_response_insert (u : option User.t) (q : Request) : Prop :=
  match q with
  | Select _ _ _ _ => True
  | Insert t values =>
    ∃ user alertId response,
      u = Some user ∧ t = alert_responses_t ∧
      values = [("alert_id", VText alertId);
                ("user_id", VText (User.id user));
                ("response", VResponse response)]
  | Update _ _ _ => False
  | Delete _ _ => False
  end.

(** The calls in the application's components that write to a backend
    table, as (component, table, kind); storage uploads and auth calls are
    not table writes.  [ReportForm] inserts a report, [Social] inserts into
    [alerts] for a post, a like and a comment, [Settings] upserts the user
    settings and updates the profile, [AuthPage] inserts the profile,
    [EmergencyEvacuation] is the component modelled here, and [CitizenApp]
    inserts a citizen report. *)
Inductive WriteKind := WInsert | WUpdate | WUpsert | WDelete.

Definition write_call_sites : list (string * string * WriteKind) :=
  [ ("ReportForm", "reports", WInsert);
    ("Social", "alerts", WInsert);
    ("Social", "alerts", WInsert);
    ("Social", "alerts", WInsert);
    ("Settings", "user_settings", WUpsert);
    ("Settings", "profiles", WUpdate);
    ("AuthPage", "profiles", WInsert);
    ("EmergencyEvacuation", "alert_responses", WInsert);
    ("CitizenApp", "citizen_reports", WInsert) ].

(** ** What the alert list shows

    The panel of the alert list as the render computes it: the spinner
    while [loading], the empty note for an empty list, otherwise one card
    per entry, whose footer is the two buttons or the note of the stored
    response.  The cards are keyed by the alert id: this is the screen when
    the ids in the list are distinct. *)

Module Footer.
Inductive t := Buttons | SafeNote | HelpNote.
End Footer.

Module Panel.
Inductive t := Spinner | NoActiveAlerts | Cards (footers : list Footer.t).
End Panel.

Definition alertFooter (alert : EvacuationAlert.t) : Footer.t :=
  if negb (EvacuationAlert.responded alert) then Footer.Buttons
  else if bool_decide (EvacuationAlert.response alert = Some yes) then Footer.SafeNote
  else Footer.HelpNote.

Definition alertsPanel (s : ViewState) : Panel.t :=
  if loading s then Panel.Spinner
  else if bool_decide (length (alerts s) = 0) then Panel.NoActiveAlerts
  else Panel.Cards (alertFooter <$> alerts s).

(** [responded] says whether a response is attached. *)
Definition labelled (s : ViewState) : Prop :=
  ∀ e, e ∈ alerts s →
       (EvacuationAlert.responded e = true ↔ is_Some (EvacuationAlert.response e)).

(** ** Severity styling *)

(** The literals of [Enums<'severity_level'>]. *)
Definition severity_name (s : severity_level) : string :=
  match s with
  | low => "low"
  | medium => "medium"
  | high => "high"
  | critical => "critical"
  end.

Definition getSeverityColor (severity : string) : string :=
  if String.eqb severity "low" then "border-blue-400 bg-blue-50"
  else if String.eqb severity "medium" then "border-yellow-400 bg-yellow-50"
  else if String.eqb severity "high" then "border-orange-400 bg-orange-50"
  else if String.eqb severity "critical" then "border-red-400 bg-red-50"
  else "border-gray-400 bg-gray-50".

Definition getSeverityIcon (severity : string) : string :=
  if String.eqb severity "low" then "📢"
  else if String.eqb severity "medium" then "⚠️"
  else if String.eqb severity "high" then "🔶"
  else if String.eqb severity "critical" then "🚨"
  else "📢".

(** ** The help and query portal *)

Definition setHelpQuery (v : string) (s : ViewState) : ViewState :=
  {| alerts := alerts s; shelters := shelters s; loading := loading s;
     helpQuery := v; querySubmitted := querySubmitted s; error := error s |}.

Definition setQuerySubmitted (v : bool) (s : ViewState) : ViewState :=
  {| alerts := alerts s; shelters := shelters s; loading := loading s;
     helpQuery := helpQuery s; querySubmitted := v; error := error s |}.

(** [setTimeout(callback, delay)], the delay in milliseconds. *)
Record Timeout := mkTimeout {
  callback : ViewState → ViewState;
  delay : N;
}.

Section QueryPortal.
(** [String.prototype.trim] of the JS runtime. *)
Variable trim : string → string.

(** The submit handler of the form: the new state and the timers it sets.
    A string is truthy when it is not empty. *)
Definition handleQuerySubmit (s : ViewState) : ViewState * list Timeout :=
  if String.eqb (trim (helpQuery s)) ""
  then (s, [])
  else (setHelpQuery "" (setQuerySubmitted true s),
        [ {| callback := setQuerySubmitted false; delay := 3000 |} ]).
End QueryPortal.

(** ** The session manager (contexts/AuthContext) and the route guard

    [useAuth] hands the component its [user].  The provider keeps six state
    cells; its async functions are trees as above, which here also return a
    value, read the [mounted] flag of the effect and the clock, and assign
    [window.location.href]. *)

Module Profile.
Record t := mk {
  id : string;
  full_name : string;
  mobile : string;
  aadhaar : string;
  address : string;
  created_at : string;
}.
End Profile.

Module ProfileRow.
Record t := mk {
  aadhaar : option string;
  address : option string;
  avatar_url : option string;
  full_name : option string;
  id : string;
  mobile : option string;
  updated_at : option string;
}.
End ProfileRow.

Module Session.
Record t := mk { user : User.t }.
End Session.

Module Auth.

Record Cells := mkCells {
  session : option Session.t;
  user : option User.t;
  profile : option Profile.t;
  loading : bool;
  error : option string;
  initialized : bool;
}.

Definition initialCells : Cells :=
  {| session := None; user := None; profile := None; loading := true;
     error := None; initialized := false |}.

Definition setSession (v : option Session.t) (c : Cells) : Cells :=
  {| session := v; user := user c; profile := profile c; loading := loading c;
     error := error c; initialized := initialized c |}.

Definition setUser (v : option User.t) (c : Cells) : Cells :=
  {| session := session c; user := v; profile := profile c; loading := loading c;
     error := error c; initialized := initialized c |}.

Definition setProfile (v : option Profile.t) (c : Cells) : Cells :=
  {| session := session c; user := user c; profile := v; loading := loading c;
     error := error c; initialized := initialized c |}.

Definition setLoading (v : bool) (c : Cells) : Cells :=
  {| session := session c; user := user c; profile := profile c; loading := v;
     error := error c; initialized := initialized c |}.

Definition setError (v : option string) (c : Cells) : Cells :=
  {| session := session c; user := user c; profile := profile c; loading := loading c;
     error := v; initialized := initialized c |}.

Definition setInitialized (v : bool) (c : Cells) : Cells :=
  {| session := session c; user := user c; profile := profile c; loading := loading c;
     error := error c; initialized := v |}.

(** The calls to the backend client. *)
Inductive Call :=
| getSession
| selectProfile (userId : string)
| authSignOut.

Definition Data (c : Call) : Type :=
  match c with
  | getSession => option Session.t
  | selectProfile _ => ProfileRow.t
  | authSignOut => unit
  end.

(** A thrown value: an [Error] with its message, or anything else. *)
Inductive Thrown :=
| ErrorObject (message : string)
| OtherValue.

(** What an [await] yields: [{ data, error }], [error] being the message of
    the returned error, or a thrown value. *)
Inductive Settled (A : Type) :=
| Returned (r : PostgrestResponse A)
| Threw (e : Thrown).
Arguments Returned {A} r.
Arguments Threw {A} e.

Inductive Proc (A : Type) :=
| Done (a : A)
| Write (f : Cells → Cells) (k : Proc A)
| Mounted (k : bool → Proc A)
| Now (k : string → Proc A)
| Navigate (href : string) (k : Proc A)
| Await (c : Call) (k : Settled (Data c) → Proc A).
Arguments Done {A} a.
Arguments Write {A} f k.
Arguments Mounted {A} k.
Arguments Now {A} k.
Arguments Navigate {A} href k.
Arguments Await {A} c k.

Fixpoint bind {A B} (p : Proc A) (f : A → Proc B) : Proc B :=
  match p with
  | Done a => f a
  | Write g k => Write g (bind k f)
  | Mounted k => Mounted (λ b, bind (k b) f)
  | Now k => Now (λ t, bind (k t) f)
  | Navigate h k => Navigate h (bind k f)
  | Await c k => Await c (λ r, bind (k r) f)
  end.

(** [x || d] on a nullable string: [d] for [null] and for the empty string. *)
Definition or_else (x : option string) (d : string) : string :=
  match x with
  | Some s => if String.eqb s "" then d else s
  | None => d
  end.

Definition fetchProfile (userId : string) : Proc (option Profile.t) :=
  Await (selectProfile userId) (λ r,
    match r with
    | Threw _ =>
      Write (setError (Some "Failed to fetch profile")) (Done None)
    | Returned (Failure message) =>
      Write (setError (Some message)) (Done None)
    | Returned (Success data) =>
      let profile created_at :=
        {| Profile.id := ProfileRow.id data;
           Profile.full_name := or_else (ProfileRow.full_name data) "";
           Profile.mobile := or_else (ProfileRow.mobile data) "";
           Profile.aadhaar := or_else (ProfileRow.aadhaar data) "";
           Profile.address := or_else (ProfileRow.address data) "";
           Profile.created_at := created_at |} in
      if String.eqb (or_else (ProfileRow.updated_at data) "") ""
      then Now (λ now, Done (Some (profile now)))
      else Done (Some (profile (or_else (ProfileRow.updated_at data) "")))
    end).

(** [refreshProfile], with the [user] of the render it was made in.
    [fetchProfile] catches everything, so the [catch] here has nothing to
    catch. *)
Definition refreshProfile (user : option User.t) : Proc unit :=
  match user with
  | None => Done ()
  | Some user =>
    Write (setLoading true)
      (bind (fetchProfile (User.id user)) (λ profile,
         match profile with
         | Some p =>
           Write (setProfile (Some p)) (Write (setError None)
             (Write (setLoading false) (Done ())))
         | None => Write (setLoading false) (Done ())
         end))
  end.

(** The end of [initializeAuth] on its three error paths. *)
Definition init_fails (message : string) : Proc unit :=
  Mounted (λ mounted,
    if mounted
    then Write (setError (Some message))
           (Write (setLoading false) (Write (setInitialized true) (Done ())))
    else Done ()).

Definition init_done : Proc unit :=
  Write (setError None) (Write (setLoading false) (Write (setInitialized true) (Done ()))).

Definition initializeAuth : Proc unit :=
  Write (setLoading true)
    (Await getSession (λ r,
       match r with
       | Threw _ => init_fails "Failed to initialize auth"
       | Returned (Failure message) => init_fails message
       | Returned (Success session) =>
         Mounted (λ mounted,
           if mounted
           then
             Write (setSession session)
               (Write (setUser (Session.user <$> session))
                  match session with
                  | Some s =>
                    bind (fetchProfile (User.id (Session.user s))) (λ profile,
                      Mounted (λ mounted',
                        if mounted'
                        then Write (setProfile profile) init_done
                        else init_done))
                  | None => init_done
                  end)
           else Done ())
       end)).

(** The [onAuthStateChange] callback. *)
Definition onAuthStateChange (session : option Session.t) : Proc unit :=
  Mounted (λ mounted,
    if mounted
    then
      Write (setSession session)
        (Write (setUser (Session.user <$> session))
           match session with
           | Some s =>
             bind (fetchProfile (User.id (Session.user s))) (λ profile,
               Mounted (λ mounted',
                 if mounted' then Write (setProfile profile) (Done ()) else Done ()))
           | None => Write (setProfile None) (Done ())
           end)
    else Done ()).

Definition signOut : Proc unit :=
  Write (setLoading true)
    (Await authSignOut (λ r,
       match r with
       | Returned (Success _) =>
         Write (setSession None) (Write (setUser None) (Write (setProfile None)
           (Write (setError None)
              (Navigate "/auth" (Write (setLoading false) (Done ()))))))
       | Returned (Failure message) =>
         Write (setError (Some message)) (Write (setLoading false) (Done ()))
       | Threw (ErrorObject message) =>
         Write (setError (Some message)) (Write (setLoading false) (Done ()))
       | Threw OtherValue =>
         Write (setError (Some "An unknown error occurred"))
           (Write (setLoading false) (Done ()))
       end)).

(** The running provider: its cells, the [mounted] flag and the
    subscription of its effect, the address last assigned to
    [window.location.href], the clock, the functions suspended at an
    [await] and the calls made. *)
Record Waiting := mkWaiting {
  call : Call;
  resume : Settled (Data call) → Proc unit;
}.

Record World := mkWorld {
  cells : Cells;
  mounted : bool;
  subscribed : bool;
  href : option string;
  clock : string;
  waiting : list Waiting;
  calls : list Call;
}.

Definition Answer : Type := ∀ c : Call, Settled (Data c).

Fixpoint run (p : Proc unit) (w : World) : World :=
  match p with
  | Done _ => w
  | Write f k =>
    run k {| cells := f (cells w); mounted := mounted w; subscribed := subscribed w;
             href := href w; clock := clock w; waiting := waiting w; calls := calls w |}
  | Mounted k => run (k (mounted w)) w
  | Now k => run (k (clock w)) w
  | Navigate h k =>
    run k {| cells := cells w; mounted := mounted w; subscribed := subscribed w;
             href := Some h; clock := clock w; waiting := waiting w; calls := calls w |}
  | Await c k =>
    {| cells := cells w; mounted := mounted w; subscribed := subscribed w;
       href := href w; clock := clock w;
       waiting := waiting w ++ [mkWaiting c k]; calls := calls w ++ [c] |}
  end.

Definition settle (n : nat) (answer : Answer) (w : World) : option World :=
  match waiting w !! n with
  | Some p =>
    Some (run (resume p (answer (call p)))
            {| cells := cells w; mounted := mounted w; subscribed := subscribed w;
               href := href w; clock := clock w;
               waiting := delete n (waiting w); calls := calls w |})
  | None => None
  end.

(** Run a function to its end, every call answered on the spot. *)
Fixpoint complete (p : Proc unit) (answer : Answer) (w : World) : World :=
  match p with
  | Done _ => w
  | Write f k =>
    complete k answer
      {| cells := f (cells w); mounted := mounted w; subscribed := subscribed w;
         href := href w; clock := clock w; waiting := waiting w; calls := calls w |}
  | Mounted k => complete (k (mounted w)) answer w
  | Now k => complete (k (clock w)) answer w
  | Navigate h k =>
    complete k answer
      {| cells := cells w; mounted := mounted w; subscribed := subscribed w;
         href := Some h; clock := clock w; waiting := waiting w; calls := calls w |}
  | Await c k =>
    complete (k (answer c)) answer
      {| cells := cells w; mounted := mounted w; subscribed := subscribed w;
         href := href w; clock := clock w; waiting := waiting w; calls := calls w ++ [c] |}
  end.

(** The provider before its effect has run. *)
Definition initialWorld (clock : string) : World :=
  {| cells := initialCells; mounted := false; subscribed := false; href := None;
     clock := clock; waiting := []; calls := [] |}.

(** The effect: [mounted = true], start [initializeAuth], subscribe. *)
Definition effect (w : World) : World :=
  let w1 := run initializeAuth
              {| cells := cells w; mounted := true; subscribed := subscribed w;
                 href := href w; clock := clock w; waiting := waiting w;
                 calls := calls w |} in
  {| cells := cells w1; mounted := mounted w1; subscribed := true; href := href w1;
     clock := clock w1; waiting := waiting w1; calls := calls w1 |}.

(** The cleanup: [mounted = false; subscription.unsubscribe()]. *)
Definition cleanup (w : World) : World :=
  {| cells := cells w; mounted := false; subscribed := false; href := href w;
     clock := clock w; waiting := waiting w; calls := calls w |}.

(** An auth event reaches the callback only through the subscription. *)
Definition authStateChanged (session : option Session.t) (w : World) : World :=
  if subscribed w then run (onAuthStateChange session) w else w.

(** What the provider renders: the context value once [initialized], the
    spinner ([None]) before. *)
Definition AuthProvider (c : Cells) : option Cells :=
  if initialized c then Some c else None.

End Auth.

(** The route guard around the pages, [location] being the current one. *)
Module RouteView.
Inductive t :=
| FullPageLoader
| Navigate (to : string) (from : string)
| Children.
End RouteView.

Definition ProtectedRoute (auth : Auth.Cells) (location : string) : RouteView.t :=
  if Auth.loading auth then RouteView.FullPageLoader
  else match Auth.user auth with
       | None => RouteView.Navigate "/auth" location
       | Some _ => RouteView.Children
       end.

(** ** Sample data for the session manager *)

Module AuthSample.
Definition session1 : Session.t := Session.mk Sample.user1.
Definition row : ProfileRow.t :=
  ProfileRow.mk None (Some "12 River Road") None (Some "Asha") "u1" None None.
(** A session exists and its profile row is found. *)
Definition signed_in : Auth.Answer :=
  λ c, match c return Auth.Settled (Auth.Data c) with
       | Auth.getSession => Auth.Returned (Success (Some session1))
       | Auth.selectProfile _ => Auth.Returned (Success row)
       | Auth.authSignOut => Auth.Returned (Success ())
       end.
(** A session exists, the profile row is not found, sign-out is refused. *)
Definition no_profile : Auth.Answer :=
  λ c, match c return Auth.Settled (Auth.Data c) with
       | Auth.getSession => Auth.Returned (Success (Some session1))
       | Auth.selectProfile _ => Auth.Returned (Failure "no rows")
       | Auth.authSignOut => Auth.Returned (Failure "network")
       end.
Definition started : Auth.World := Auth.effect (Auth.initialWorld "2025-07-16T12:00:00Z").
End AuthSample.


(** * Lemmas and theorems *)

(** ** The JS [Map] built from the fetched responses *)

Lemma Map_new_snoc entries k v :
  Map_new (entries ++ [(k, v)]) = <[k := v]> (Map_new entries).
Proof. unfold Map_new. by rewrite foldl_app. Qed.

Lemma Map_new_is_Some entries k :
  is_Some (Map_new entries !! k) ↔ k ∈ entries.*1.
Proof.
  induction entries as [|[k' v'] entries IH] using rev_ind.
  - unfold Map_new; simpl. rewrite lookup_empty. split.
    + intros [? ?]; discriminate.
    + intros H; inversion H.
  - rewrite Map_new_snoc, fmap_app, elem_of_app. simpl.
    destruct (decide (k' = k)) as [->|Hne].
    + rewrite lookup_insert_eq. split; [intros _; right; left | eauto].
    + rewrite lookup_insert_ne by done. rewrite IH. split; [tauto|].
      intros [?|Hin]; [done|].
      apply list_elem_of_singleton in Hin. congruence.
Qed.

Lemma Map_new_Some entries k v :
  Map_new entries !! k = Some v → (k, v) ∈ entries.
Proof.
  induction entries as [|[k' v'] entries IH] using rev_ind.
  - unfold Map_new; simpl. by rewrite lookup_empty.
  - rewrite Map_new_snoc, elem_of_app.
    destruct (decide (k' = k)) as [->|Hne].
    + rewrite lookup_insert_eq. intros [= ->]. right; left.
    + rewrite lookup_insert_ne by done. auto.
Qed.

(** With one entry per key, the map returns that entry's value. *)
Lemma Map_new_unique entries k v :
  (k, v) ∈ entries →
  (∀ v', (k, v') ∈ entries → v' = v) →
  Map_new entries !! k = Some v.
Proof.
  intros Hin Huniq.
  assert (is_Some (Map_new entries !! k)) as [v' Hv'].
  { apply Map_new_is_Some. apply list_elem_of_fmap. by exists (k, v). }
  rewrite Hv'. f_equal. apply Huniq. by apply Map_new_Some.
Qed.

Lemma Map_has_true m k : Map_has m k = true ↔ is_Some (m !! k).
Proof.
  unfold Map_has. destruct (m !! k); split; try done; eauto.
Qed.

Lemma response_entries_elem (rows : list AlertResponseRow.t) k v :
  (k, v) ∈ fmap (λ r, (AlertResponseRow.alert_id r, AlertResponseRow.response r)) rows ↔
  ∃ r, r ∈ rows ∧ AlertResponseRow.alert_id r = k ∧ AlertResponseRow.response r = v.
Proof.
  rewrite list_elem_of_fmap. split.
  - intros (r & [= -> ->] & Hr). eauto.
  - intros (r & Hr & <- & <-). eauto.
Qed.

Lemma userResponses_is_Some (rows : list AlertResponseRow.t) k :
  is_Some (userResponses rows !! k) ↔
  ∃ r, r ∈ rows ∧ AlertResponseRow.alert_id r = k.
Proof.
  unfold userResponses. rewrite Map_new_is_Some.
  rewrite <- list_fmap_compose. rewrite list_elem_of_fmap. simpl.
  split; intros (r & ? & ?); exists r; eauto.
Qed.

Lemma userResponses_Some rows k v :
  userResponses rows !! k = Some v →
  ∃ r, r ∈ rows ∧ AlertResponseRow.alert_id r = k ∧ AlertResponseRow.response r = v.
Proof.
  unfold userResponses. intros H%Map_new_Some. by apply response_entries_elem.
Qed.

(** ** Load *)

Lemma complete_load_success user alertsData responsesData sheltersData i w :
  view (complete (fetchInitialData (Some user))
          (answer_of (Resolved (Success alertsData)) (Resolved (Success responsesData))
                     (Resolved (Success sheltersData)) i) w)
  = {| alerts := enrichedAlerts alertsData responsesData;
       shelters := sheltersData; loading := false;
       helpQuery := helpQuery (view w); querySubmitted := querySubmitted (view w);
       error := None |}.
Proof. reflexivity. Qed.

(** C1. A load in which the three fetches succeed asks for the responses
    whose [user_id] is the current user's, and leaves as alert list the
    fetched alerts in order, each decorated from the fetched responses:
    [responded] is true exactly when some fetched response row carries the
    alert's id, and then [response] is the value of such a row -- of the
    row for that alert when there is only one. *)
Theorem load_responded_iff_response_fetched
    (user : User.t) (alertsData : list Alert.t)
    (responsesData : list AlertResponseRow.t) (sheltersData : list Shelter.t)
    (i : Outcome unit) (w : World) :
  let w' := complete (fetchInitialData (Some user))
              (answer_of (Resolved (Success alertsData))
                         (Resolved (Success responsesData))
                         (Resolved (Success sheltersData)) i) w in
  sent w' = (sent w ++ [select_alerts; select_alert_responses user; select_shelters])%list ∧
  EvacuationAlert.alert <$> alerts (view w') = alertsData ∧
  ∀ A, A ∈ alerts (view w') →
    (EvacuationAlert.responded A = true ↔
       ∃ r, r ∈ responsesData ∧ AlertResponseRow.alert_id r = EvacuationAlert.id A) ∧
    (EvacuationAlert.responded A = true →
       ∃ r, r ∈ responsesData ∧
            AlertResponseRow.alert_id r = EvacuationAlert.id A ∧
            EvacuationAlert.response A = Some (AlertResponseRow.response r)) ∧
    (∀ r, r ∈ responsesData →
          AlertResponseRow.alert_id r = EvacuationAlert.id A →
          (∀ r', r' ∈ responsesData →
                 AlertResponseRow.alert_id r' = EvacuationAlert.id A →
                 AlertResponseRow.response r' = AlertResponseRow.response r) →
          EvacuationAlert.responded A = true ∧
          EvacuationAlert.response A = Some (AlertResponseRow.response r)).
Proof.
  intros w'. subst w'. split.
  { cbn. by rewrite <- !app_assoc. }
  rewrite complete_load_success. simpl. split.
  { unfold enrichedAlerts. rewrite <- list_fmap_compose. apply list_fmap_id. }
  intros A HA. unfold enrichedAlerts in HA.
  apply list_elem_of_fmap in HA as (a & -> & Ha).
  unfold EvacuationAlert.id; simpl. unfold Map_get.
  split; [|split].
  - rewrite Map_has_true. apply userResponses_is_Some.
  - rewrite Map_has_true. intros [v Hv].
    destruct (userResponses_Some _ _ _ Hv) as (r & Hr & Hid & Hresp).
    exists r. by rewrite Hv, Hresp.
  - intros r Hr Hid Huniq. split.
    + apply Map_has_true, userResponses_is_Some. eauto.
    + unfold userResponses. apply Map_new_unique.
      * apply response_entries_elem. eauto.
      * intros v' (r' & Hr' & Hid' & <-)%response_entries_elem. by apply Huniq.
Qed.

(** [complete] is the interleaved semantics with every request settled as
    soon as it is sent. *)
Lemma complete_run_settled (p : Async) (answer : Answer) (w : World) :
  ∃ n, steps (replicate n (Settle (length (pending w)) answer)) (run p w)
       = Some (complete p answer w).
Proof.
  revert w. induction p as [|f k IH|q k IH]; intros w.
  - by exists 0.
  - simpl. destruct (IH (with_view f w)) as [n Hn]. by exists n.
  - destruct (IH (answer q) (send q w)) as [n Hn]. exists (S n).
    cbn [replicate steps step run]. unfold settle, suspend. cbn [pending].
    rewrite (list_lookup_middle (pending w) [] _ (length (pending w)) eq_refl).
    cbn [request resume]. rewrite delete_middle, app_nil_r. exact Hn.
Qed.

Lemma load_responded_iff_response_fetched_witness :
  EvacuationAlert.responded
    {| EvacuationAlert.alert := Sample.alert1; EvacuationAlert.responded := true;
       EvacuationAlert.response := Some yes |} = true ∧
  EvacuationAlert.response
    {| EvacuationAlert.alert := Sample.alert1; EvacuationAlert.responded := true;
       EvacuationAlert.response := Some yes |}
  = Some (AlertResponseRow.response Sample.row1).
Proof.
  destruct (load_responded_iff_response_fetched Sample.user1
              [Sample.alert1; Sample.alert2] [Sample.row1] [] Sample.ok
              (initialWorld (Some Sample.user1))) as (_ & _ & H).
  destruct (H {| EvacuationAlert.alert := Sample.alert1;
                 EvacuationAlert.responded := true;
                 EvacuationAlert.response := Some yes |}) as (_ & _ & H3).
  { vm_compute. left. }
  apply (H3 Sample.row1).
  - left.
  - reflexivity.
  - intros r' Hr' _. apply list_elem_of_singleton in Hr'. by subst r'.
Defined.

(** C5 as stated fails: the alerts and responses fetches succeed, the
    shelters fetch comes back with an error, and the alert list enriched in
    that attempt has already been committed. *)
Lemma load_shelters_failure_keeps_alerts :
  let a := Resolved (Success [Sample.alert1]) in
  let r := Resolved (Success [Sample.row1]) in
  let s : Outcome (list Shelter.t) := Resolved (Failure "timeout") in
  let w := initialWorld (Some Sample.user1) in
  let w' := complete (fetchInitialData (Some Sample.user1))
              (answer_of a r s Sample.ok) w in
  failed s = true ∧
  error (view w') = Some "Failed to fetch shelters data. Please try again later." ∧
  alerts (view w) = [] ∧
  alerts (view w')
  = [ {| EvacuationAlert.alert := Sample.alert1; EvacuationAlert.responded := true;
         EvacuationAlert.response := Some yes |} ].
Proof. vm_compute. done. Qed.

(** C5, amended. When a fetch of the load fails (comes back with an error
    or throws), an error message is set and [loading] ends false; no
    shelter state is committed; no alert state is committed when the alerts
    or the responses fetch failed, while a failure of the shelters fetch
    alone leaves the alerts enriched in that attempt in place; each request
    is sent at most once and nothing is left waiting. *)
Theorem load_failure_reports_error
    (user : User.t) (a : Outcome (list Alert.t))
    (r : Outcome (list AlertResponseRow.t)) (s : Outcome (list Shelter.t))
    (i : Outcome unit) (w : World) :
  failed a || failed r || failed s = true →
  let w' := complete (fetchInitialData (Some user)) (answer_of a r s i) w in
  is_Some (error (view w')) ∧
  loading (view w') = false ∧
  shelters (view w') = shelters (view w) ∧
  (failed a || failed r = true → alerts (view w') = alerts (view w)) ∧
  (∀ alertsData responsesData,
     a = Resolved (Success alertsData) → r = Resolved (Success responsesData) →
     alerts (view w') = enrichedAlerts alertsData responsesData) ∧
  pending w' = pending w ∧
  ∃ n, sent w' = (sent w ++ take n [select_alerts; select_alert_responses user; select_shelters])%list.
Proof.
  intros Hfail w'. subst w'.
  destruct a as [[alertsData|ea]|]; destruct r as [[responsesData|er]|];
    destruct s as [[sheltersData|es]|]; try discriminate Hfail; cbn.
  all: split; [eauto|].
  all: split; [done|].
  all: split; [done|].
  all: split; [try done; intros [=]|].
  all: split; [try (intros ? ? [=] [=]; by subst)|].
  all: split; [done|].
  all: rewrite <- ?app_assoc; first [by exists 1 | by exists 2 | by exists 3].
Qed.

Lemma load_failure_reports_error_witness :
  is_Some (error (view (complete (fetchInitialData (Some Sample.user1))
                          Sample.refuses (initialWorld (Some Sample.user1))))).
Proof.
  apply (load_failure_reports_error Sample.user1
           (Resolved (Failure "network")) (Resolved (Failure "network"))
           (Resolved (Failure "network")) Sample.conflict
           (initialWorld (Some Sample.user1))).
  reflexivity.
Defined.

(** C10. Without a current user both handlers return at once: the load and
    the submit change no state cell, send no request and leave nothing
    waiting, whether run alone or started by the mount effect or a click. *)
Theorem no_user_load_and_submit_do_nothing (w : World) :
  user w = None →
  (run (fetchInitialData (user w)) w = w) ∧
  (∀ answer, complete (fetchInitialData (user w)) answer w = w) ∧
  (∀ alertId response, run (handleAlertResponse (user w) alertId response) w = w) ∧
  (∀ alertId response answer,
     complete (handleAlertResponse (user w) alertId response) answer w = w) ∧
  (view (mount w) = view w ∧ sent (mount w) = sent w ∧ pending (mount w) = pending w) ∧
  (∀ i response w', click i response w = Some w' → w' = w).
Proof.
  intros Hu. unfold mount, click. rewrite Hu. cbn.
  repeat split; try done.
  intros i response w'.
  destruct (channel w); [|done]. destruct (loading (view w)); [done|].
  destruct (alerts (view w) !! i) as [e|]; [|done].
  destruct (EvacuationAlert.responded e); [done|]. cbn. by intros [= <-].
Qed.

Lemma no_user_load_and_submit_do_nothing_witness :
  run (fetchInitialData None) (initialWorld None) = initialWorld None ∧
  run (handleAlertResponse None "a1" yes) (initialWorld None) = initialWorld None.
Proof.
  destruct (no_user_load_and_submit_do_nothing (initialWorld None) eq_refl)
    as (H1 & _ & H3 & _).
  split; [exact H1 | exact (H3 "a1" yes)].
Defined.

(** ** Facts about [run] *)

Lemma run_channel p w : channel (run p w) = channel w.
Proof. revert w. induction p as [|f k IH|q k IH]; intros w; simpl; [done| |done]. by rewrite IH. Qed.

Lemma run_user p w : user (run p w) = user w.
Proof. revert w. induction p as [|f k IH|q k IH]; intros w; simpl; [done| |done]. by rewrite IH. Qed.

Lemma step_user e w w' : step e w = Some w' → user w' = user w.
Proof.
  destruct e as [| |a|i v|n answer]; simpl.
  - destruct (channel w); [done|]. intros [= <-]. unfold mount. simpl. apply run_user.
  - destruct (channel w); [|done]. by intros [= <-].
  - intros [= <-]. unfold notify. by destruct (channel w).
  - unfold click. destruct (channel w); [|done]. destruct (loading (view w)); [done|].
    destruct (alerts (view w) !! i) as [e|]; [|done].
    destruct (EvacuationAlert.responded e); [done|]. intros [= <-]. apply run_user.
  - unfold settle. destruct (pending w !! n); [|done]. intros [= <-]. by rewrite run_user.
Qed.

Lemma steps_no_mount_channel es w w' :
  channel w = None → Mount ∉ es → steps es w = Some w' → channel w' = None.
Proof.
  revert w. induction es as [|e es IH]; intros w Hc Hm; simpl.
  - by intros [= <-].
  - apply not_elem_of_cons in Hm as [Hne Hm].
    destruct (step e w) as [w1|] eqn:Hstep; [|done].
    apply IH; [|done].
    destruct e as [| |a|i v|n answer]; simpl in Hstep.
    + done.
    + by rewrite Hc in Hstep.
    + injection Hstep as <-. unfold notify. by rewrite Hc.
    + unfold click in Hstep. by rewrite Hc in Hstep.
    + unfold settle in Hstep. destruct (pending w !! n); [|done].
      injection Hstep as <-. by rewrite run_channel.
Qed.

(** ** Live alert arrival *)

(** C4. While the subscription is in place, a notification puts exactly one
    new entry, with [responded] false and no response, in front of the
    list; the entries already there keep their order and content, and no
    request is sent. *)
Theorem notification_prepends_one_entry (w : World) (c : Channel) (newAlert : Alert.t) :
  channel w = Some c →
  alerts (view (notify newAlert w))
  = {| EvacuationAlert.alert := newAlert; EvacuationAlert.responded := false;
       EvacuationAlert.response := None |} :: alerts (view w) ∧
  (∀ i e, alerts (view w) !! i = Some e → alerts (view (notify newAlert w)) !! S i = Some e) ∧
  length (alerts (view (notify newAlert w))) = S (length (alerts (view w))) ∧
  sent (notify newAlert w) = sent w ∧
  pending (notify newAlert w) = pending w.
Proof.
  intros Hc. unfold notify. rewrite Hc. simpl. repeat split. done.
Qed.

Lemma notification_prepends_one_entry_witness :
  alerts (view (notify Sample.alert2 (mount (initialWorld None))))
  = [ {| EvacuationAlert.alert := Sample.alert2; EvacuationAlert.responded := false;
         EvacuationAlert.response := None |} ].
Proof.
  destruct (notification_prepends_one_entry (mount (initialWorld None)) alerts_channel
              Sample.alert2 eq_refl) as [H _].
  exact H.
Defined.

(** C9. The handler does not look at the list: a notification whose id is
    already present still adds a head entry, after which the ids in the
    list repeat; a load followed by such a notification reaches this. *)
Theorem notification_prepends_even_if_id_present
    (w : World) (c : Channel) (newAlert : Alert.t) :
  channel w = Some c →
  Alert.id newAlert ∈ ids (alerts (view w)) →
  (alerts (view (notify newAlert w))
   = {| EvacuationAlert.alert := newAlert; EvacuationAlert.responded := false;
        EvacuationAlert.response := None |} :: alerts (view w) ∧
   ¬ NoDup (ids (alerts (view (notify newAlert w))))) ∧
  ∃ w1 w2,
    steps [Mount; Settle 0 (Sample.loads [Sample.alert1] []);
           Settle 0 (Sample.loads [Sample.alert1] []);
           Settle 0 (Sample.loads [Sample.alert1] [])]
          (initialWorld (Some Sample.user1)) = Some w1 ∧
    NoDup (ids (alerts (view w1))) ∧
    step (Notification Sample.alert1) w1 = Some w2 ∧
    ¬ NoDup (ids (alerts (view w2))).
Proof.
  intros Hc Hin. split.
  - unfold notify. rewrite Hc. simpl. split; [done|].
    intros Hnd. apply NoDup_cons in Hnd as [Hnot _]. by apply Hnot.
  - eexists _, _. split; [vm_compute; reflexivity|].
    split; [|split; [vm_compute; reflexivity|]].
    + cbn. apply NoDup_singleton.
    + cbn. intros Hnd. apply NoDup_cons in Hnd as [Hnot _]. apply Hnot. left.
Qed.

Lemma notification_prepends_even_if_id_present_witness :
  ¬ NoDup (ids (alerts (view
      (notify Sample.alert1 (notify Sample.alert1 (mount (initialWorld None))))))).
Proof.
  destruct (notification_prepends_even_if_id_present
              (notify Sample.alert1 (mount (initialWorld None))) alerts_channel
              Sample.alert1 eq_refl) as [[_ H] _].
  - vm_compute. left.
  - exact H.
Defined.

(** C8. The cleanup removes the channel, and with the channel gone a
    notification reaches no handler: any run of notifications after the
    unmount leaves the component as it was, and so does a notification
    after any later events that do not mount it again. *)
Theorem unmount_stops_notifications (w : World) (c : Channel) :
  channel w = Some c →
  step Unmount w = Some (unmount w) ∧
  channel (unmount w) = None ∧
  view (unmount w) = view w ∧
  (∀ news : list Alert.t,
     steps (Notification <$> news) (unmount w) = Some (unmount w)) ∧
  (∀ es w1 newAlert,
     Mount ∉ es → steps es (unmount w) = Some w1 →
     step (Notification newAlert) w1 = Some w1).
Proof.
  intros Hc. simpl. rewrite Hc. repeat split.
  - intros news. induction news as [|a news IH]; [done|].
    cbn [fmap list_fmap steps step]. unfold notify at 1. simpl. exact IH.
  - intros es w1 newAlert Hm Hsteps. simpl. f_equal. unfold notify.
    by rewrite (steps_no_mount_channel es (unmount w) w1 eq_refl Hm Hsteps).
Qed.

Lemma unmount_stops_notifications_witness :
  steps (Notification <$> [Sample.alert1; Sample.alert2])
        (unmount (mount (initialWorld None)))
  = Some (unmount (mount (initialWorld None))).
Proof.
  destruct (unmount_stops_notifications (mount (initialWorld None)) alerts_channel eq_refl)
    as (_ & _ & _ & H & _).
  exact (H [Sample.alert1; Sample.alert2]).
Defined.

(** ** Submit response *)

Lemma markResponded_lookup alertId response (l : list EvacuationAlert.t) i :
  markResponded alertId response l !! i
  = (λ alert, if String.eqb (EvacuationAlert.id alert) alertId
              then {| EvacuationAlert.alert := EvacuationAlert.alert alert;
                      EvacuationAlert.responded := true;
                      EvacuationAlert.response := Some response |}
              else alert) <$> l !! i.
Proof. apply list_lookup_fmap. Qed.

Lemma revertResponded_lookup alertId (l : list EvacuationAlert.t) i :
  revertResponded alertId l !! i
  = (λ alert, if String.eqb (EvacuationAlert.id alert) alertId
              then {| EvacuationAlert.alert := EvacuationAlert.alert alert;
                      EvacuationAlert.responded := false;
                      EvacuationAlert.response := None |}
              else alert) <$> l !! i.
Proof. apply list_lookup_fmap. Qed.

(** C2. With a current user, submitting [response] for a listed alert that
    has [responded] false makes that entry [responded] true with that
    response as soon as the handler has run up to its [await]: the insert
    has been sent and is still waiting.  The click on the entry's button is
    such a submit. *)
Theorem submit_marks_responded_before_write_settles
    (w : World) (u : User.t) (i : nat) (e : EvacuationAlert.t) (response : AlertResponse) :
  user w = Some u →
  alerts (view w) !! i = Some e →
  EvacuationAlert.responded e = false →
  let alertId := EvacuationAlert.id e in
  let w' := run (handleAlertResponse (user w) alertId response) w in
  alerts (view w') !! i
  = Some {| EvacuationAlert.alert := EvacuationAlert.alert e;
            EvacuationAlert.responded := true;
            EvacuationAlert.response := Some response |} ∧
  pending w' = (pending w ++ [mkPending (insert_alert_response alertId u response)
                                        (handleAlertResponse_settled alertId)])%list ∧
  sent w' = (sent w ++ [insert_alert_response alertId u response])%list ∧
  (is_Some (channel w) → loading (view w) = false → click i response w = Some w').
Proof.
  intros Hu Hi Hr alertId w'. subst w' alertId. rewrite Hu. cbn.
  rewrite markResponded_lookup, Hi. cbn. rewrite String.eqb_refl.
  repeat split. intros [c Hc] Hl. unfold click. by rewrite Hc, Hl, Hi, Hr, Hu.
Qed.

Lemma submit_marks_responded_before_write_settles_witness :
  alerts (view (run (handleAlertResponse (Some Sample.user1) "a2" no)
                    (notify Sample.alert2 (mount (initialWorld (Some Sample.user1)))))) !! 0
  = Some {| EvacuationAlert.alert := Sample.alert2; EvacuationAlert.responded := true;
            EvacuationAlert.response := Some no |}.
Proof.
  destruct (submit_marks_responded_before_write_settles
              (notify Sample.alert2 (mount (initialWorld (Some Sample.user1))))
              Sample.user1 0
              {| EvacuationAlert.alert := Sample.alert2; EvacuationAlert.responded := false;
                 EvacuationAlert.response := None |}
              no eq_refl eq_refl eq_refl) as [H _].
  exact H.
Defined.

Section Kept.
Variable P : ViewState → Prop.
Hypothesis load_ok : ∀ u, preserves P (fetchInitialData u).
Hypothesis submit_ok : ∀ u alertId response, preserves P (handleAlertResponse u alertId response).
Hypothesis insert_ok : ∀ newAlert, preserves P (onAlertInsert newAlert).

Lemma run_keeps p w : preserves P p → keeps P w → keeps P (run p w).
Proof.
  revert w. induction p as [|f k IH|q k IH]; intros w Hp [Hv Hpend]; simpl.
  - done.
  - destruct Hp as [Hf Hk]. apply IH; [done|]. split; [by apply Hf|done].
  - split; [done|]. simpl. intros p [Hin|Hin]%elem_of_app; [by apply Hpend|].
    apply list_elem_of_singleton in Hin as ->. exact Hp.
Qed.

Lemma step_keeps e w w' : keeps P w → step e w = Some w' → keeps P w'.
Proof.
  intros Hk. destruct e as [| |a|i v|n answer]; simpl.
  - destruct (channel w); [done|]. intros [= <-]. unfold mount.
    destruct (run_keeps (fetchInitialData (user w)) w (load_ok _) Hk). by split.
  - destruct (channel w); [|done]. by intros [= <-].
  - intros [= <-]. unfold notify. destruct (channel w); [|done].
    by apply run_keeps.
  - unfold click. destruct (channel w); [|done]. destruct (loading (view w)); [done|].
    destruct (alerts (view w) !! i) as [e|]; [|done].
    destruct (EvacuationAlert.responded e); [done|]. intros [= <-].
    by apply run_keeps.
  - unfold settle. destruct (pending w !! n) as [p|] eqn:Hp; [|done]. intros [= <-].
    destruct Hk as [Hv Hpend]. apply run_keeps.
    + apply Hpend. by eapply list_elem_of_lookup_2.
    + split; [done|]. simpl. intros p' Hin. apply Hpend.
      eapply elem_of_sublist; [done|]. apply sublist_delete.
Qed.

Lemma steps_keeps es w w' : keeps P w → steps es w = Some w' → keeps P w'.
Proof.
  revert w. induction es as [|e es IH]; intros w Hk; simpl.
  - by intros [= <-].
  - destruct (step e w) as [w1|] eqn:Hstep; [|done]. apply IH. by eapply step_keeps.
Qed.

Lemma reachable_keeps w : P initialState → reachable w → P (view w).
Proof.
  intros H0 (u & es & Hsteps).
  apply (steps_keeps es (initialWorld u) w); [|done].
  split; [done|]. simpl. intros p Hin. inversion Hin.
Qed.
End Kept.




(** Walk through a handler: one goal per setter call. *)
Ltac each_setter :=
  repeat match goal with
  | |- preserves _ (match ?r with _ => _ end) => destruct r; simpl
  | |- preserves _ (handleAlertResponse_settled _ _) => unfold handleAlertResponse_settled
  | |- ∀ r : Reply _, _ => let r := fresh "r" in intros r; simpl in r
  | |- ∀ r : Outcome _, _ => let r := fresh "r" in intros r
  | |- _ ∧ _ => split
  | |- True => exact I
  | |- preserves _ _ => progress simpl
  end.





Lemma markResponded_relabel x v l : markResponded x v l = relabel x true (Some v) l.
Proof. reflexivity. Qed.

Lemma revertResponded_relabel x l : revertResponded x l = relabel x false None l.
Proof. reflexivity. Qed.

Lemma relabel_elem x b r l e' :
  e' ∈ relabel x b r l →
  ∃ a, a ∈ l ∧ EvacuationAlert.id e' = EvacuationAlert.id a ∧
       ((EvacuationAlert.id a = x ∧ EvacuationAlert.responded e' = b) ∨
        (EvacuationAlert.id a ≠ x ∧ e' = a)).
Proof.
  unfold relabel. intros (a & -> & Ha)%list_elem_of_fmap. exists a. split; [done|].
  destruct (String.eqb_spec (EvacuationAlert.id a) x) as [Heq|Hne].
  - split; [done|]. by left.
  - split; [done|]. by right.
Qed.

Lemma relabel_ids x b r l : ids (relabel x b r l) = ids l.
Proof.
  unfold ids, relabel. rewrite <- list_fmap_compose. apply list_fmap_ext.
  intros i a _. simpl. by destruct (String.eqb _ _).
Qed.

Lemma relabel_entry_other x b r l j e :
  entry l j = Some e → EvacuationAlert.id e ≠ x → entry (relabel x b r l) j = Some e.
Proof.
  unfold entry, relabel. intros He Hne.
  rewrite <- fmap_reverse, list_lookup_fmap, He. simpl.
  by apply String.eqb_neq in Hne as ->.
Qed.

Lemma entry_elem l j e : entry l j = Some e → e ∈ l.
Proof. unfold entry. intros H%list_elem_of_lookup_2. by apply elem_of_reverse. Qed.

Lemma entry_cons a l j e : entry l j = Some e → entry (a :: l) j = Some e.
Proof.
  unfold entry. intros H. rewrite reverse_cons, lookup_app_l; [done|].
  by eapply lookup_lt_Some.
Qed.

Lemma answered_inv l waiting j :
  answered l waiting j ↔
  ∃ e, entry l j = Some e ∧ EvacuationAlert.responded e = true ∧
       EvacuationAlert.id e ∉ waiting.
Proof.
  unfold answered, status_of. destruct (entry l j) as [e|]; simpl; split.
  - destruct (EvacuationAlert.responded e) eqn:Hr; [|done].
    case_bool_decide; [done|]. intros _. eauto.
  - intros (e' & [= <-] & -> & Hn). by rewrite bool_decide_eq_false_2.
  - done.
  - by intros (? & ? & _).
Qed.

Lemma fits_submit l waiting e r :
  fits l waiting → e ∈ l → EvacuationAlert.responded e = false →
  fits (relabel (EvacuationAlert.id e) true r l) (waiting ++ [EvacuationAlert.id e]) ∧
  ∀ j, answered l waiting j →
       answered (relabel (EvacuationAlert.id e) true r l) (waiting ++ [EvacuationAlert.id e]) j.
Proof.
  intros [Honce Hlisted Hwait Hsame] He Hr.
  assert (EvacuationAlert.id e ∉ waiting) as Hfree.
  { intros Hin. specialize (Hwait e He Hin). congruence. }
  split; [split|].
  - apply NoDup_app. split; [done|]. split; [|apply NoDup_singleton].
    intros x Hx ->%list_elem_of_singleton. done.
  - intros x [Hx| ->%list_elem_of_singleton]%elem_of_app; rewrite relabel_ids.
    + by apply Hlisted.
    + by apply list_elem_of_fmap_2.
  - intros e' (a & Ha & Hid & [[_ Hb]|[Hne ->]])%relabel_elem; [done|].
    intros [Hin|Heq%list_elem_of_singleton]%elem_of_app; [by apply Hwait|done].
  - intros e1 e2 (a1 & Ha1 & Hid1 & H1)%relabel_elem (a2 & Ha2 & Hid2 & H2)%relabel_elem Heq.
    rewrite Hid1, Hid2 in Heq.
    destruct H1 as [[Hx1 ->]|[Hn1 ->]], H2 as [[Hx2 ->]|[Hn2 ->]]; try congruence.
    by apply Hsame.
  - intros j (e' & Hj & Hr' & Hfree')%answered_inv. apply answered_inv.
    assert (EvacuationAlert.id e' ≠ EvacuationAlert.id e) as Hne.
    { intros Heq. pose proof (Hsame e' e (entry_elem _ _ _ Hj) He Heq). congruence. }
    exists e'. split; [by apply relabel_entry_other|]. split; [done|].
    apply not_elem_of_app. split; [done|]. by intros Heq%list_elem_of_singleton.
Qed.

Lemma fits_settled l l1 y l2 (revert : bool) :
  fits l (l1 ++ y :: l2) →
  let l' := if revert then relabel y false None l else l in
  fits l' (l1 ++ l2) ∧
  ∀ j, answered l (l1 ++ y :: l2) j → answered l' (l1 ++ l2) j.
Proof.
  intros [Honce Hlisted Hwait Hsame] l'.
  assert (y ∉ (l1 ++ l2)%list) as Hy.
  { apply NoDup_app in Honce as (_ & Hdisj & [Hy2 _]%NoDup_cons).
    apply not_elem_of_app. split; [|done].
    intros Hy1. apply (Hdisj y Hy1). left. }
  assert (∀ x, x ∈ (l1 ++ l2)%list → x ∈ (l1 ++ y :: l2)%list) as Hsub.
  { intros x [?|?]%elem_of_app; apply elem_of_app; [by left|]. right. by right. }
  assert (NoDup (l1 ++ l2)%list) as Honce'.
  { apply NoDup_app in Honce as (H1 & Hdisj & [_ H2]%NoDup_cons).
    apply NoDup_app. split; [done|]. split; [|done].
    intros x Hx1 Hx2. apply (Hdisj x Hx1). by right. }
  subst l'. destruct revert.
  - split; [split|]; [done| | | |].
    + intros x Hx. rewrite relabel_ids. apply Hlisted. by apply Hsub.
    + intros e' (a & Ha & Hid & [[Hx _]|[Hne ->]])%relabel_elem Hin.
      * rewrite Hid, Hx in Hin. done.
      * apply Hwait; [done|]. by apply Hsub.
    + intros e1 e2 (a1 & Ha1 & Hid1 & H1)%relabel_elem (a2 & Ha2 & Hid2 & H2)%relabel_elem Heq.
      rewrite Hid1, Hid2 in Heq.
      destruct H1 as [[Hx1 ->]|[Hn1 ->]], H2 as [[Hx2 ->]|[Hn2 ->]]; try congruence.
      by apply Hsame.
    + intros j (e' & Hj & Hr' & Hfree')%answered_inv. apply answered_inv.
      assert (EvacuationAlert.id e' ≠ y) as Hne.
      { intros Heq. apply Hfree'. rewrite Heq. apply elem_of_app. right. left. }
      exists e'. split; [by apply relabel_entry_other|]. split; [done|].
      intros Hin. apply Hfree'. by apply Hsub.
  - split; [split|]; [done| | |done|].
    + intros x Hx. apply Hlisted. by apply Hsub.
    + intros e He Hin. apply Hwait; [done|]. by apply Hsub.
    + intros j (e' & Hj & Hr' & Hfree')%answered_inv. apply answered_inv.
      exists e'. split; [done|]. split; [done|].
      intros Hin. apply Hfree'. by apply Hsub.
Qed.

Lemma fits_notified l waiting newAlert :
  fits l waiting → Alert.id newAlert ∉ ids l →
  let l' := {| EvacuationAlert.alert := newAlert; EvacuationAlert.responded := false;
               EvacuationAlert.response := None |} :: l in
  fits l' waiting ∧ ∀ j, answered l waiting j → answered l' waiting j.
Proof.
  intros [Honce Hlisted Hwait Hsame] Hfresh l'. subst l'.
  assert (∀ e, e ∈ l → EvacuationAlert.id e ≠ Alert.id newAlert) as Hother.
  { intros e He Heq. apply Hfresh. rewrite <- Heq. by apply list_elem_of_fmap_2. }
  split; [split|]; [done| | | |].
  - intros x Hx. unfold ids. rewrite fmap_cons. right. by apply Hlisted.
  - intros e [->|He]%elem_of_cons Hin; [|by apply Hwait].
    exfalso. apply Hfresh. by apply Hlisted.
  - intros e1 e2 [->|He1]%elem_of_cons [->|He2]%elem_of_cons Heq; [done| | |by apply Hsame].
    + symmetry in Heq. by apply Hother in Heq.
    + by apply Hother in Heq.
  - intros j (e' & Hj & Hr' & Hfree')%answered_inv. apply answered_inv.
    exists e'. split; [by apply entry_cons|done].
Qed.

Lemma pending_ids_settled (ps : list Pending) n p y :
  ps !! n = Some p → insert_target (request p) = Some y →
  ∃ l1 l2,
    omap (λ p, insert_target (request p)) ps = (l1 ++ y :: l2)%list ∧
    omap (λ p, insert_target (request p)) (delete n ps) = (l1 ++ l2)%list.
Proof.
  intros Hp Hy.
  exists (omap (λ p, insert_target (request p)) (take n ps)),
         (omap (λ p, insert_target (request p)) (drop (S n) ps)).
  split.
  - rewrite <- (take_drop_middle ps n p Hp) at 1.
    rewrite omap_app. simpl. by rewrite Hy.
  - by rewrite delete_take_drop, omap_app.
Qed.

Lemma coherent_loaded w alertsData responsesData :
  pending_ids w = [] →
  alerts (view w) = enrichedAlerts alertsData responsesData →
  coherent w.
Proof.
  intros Hp Ha. split.
  - intros p x Hin Hx. exfalso.
    assert (x ∈ pending_ids w) as Hmem.
    { apply list_elem_of_omap. eauto. }
    rewrite Hp in Hmem. inversion Hmem.
  - rewrite Hp, Ha. split.
    + apply NoDup_nil_2.
    + intros x Hx. inversion Hx.
    + intros e _ He. inversion He.
    + unfold enrichedAlerts.
      intros e1 e2 (a1 & -> & _)%list_elem_of_fmap (a2 & -> & _)%list_elem_of_fmap.
      unfold EvacuationAlert.id. simpl. by intros ->.
Qed.

Lemma coherent_ui_step w w' :
  coherent w → ui_step fresh_alert w w' →
  coherent w' ∧
  ∀ j, status_at w j = Some Status.Answered → status_at w' j = Some Status.Answered.
Proof.
  intros [Hhand Hfits] Hstep.
  destruct Hstep as [i response w' Hclick | n answer p w' Hp [y Hy] Hsettle | newAlert _ Hfresh].
  - unfold click in Hclick.
    destruct (channel w); [|done]. destruct (loading (view w)); [done|].
    destruct (alerts (view w) !! i) as [e|] eqn:Hi; [|done].
    destruct (EvacuationAlert.responded e) eqn:Hr; [done|].
    injection Hclick as <-.
    destruct (user w) as [u|]; simpl; [|by split].
    destruct (fits_submit _ _ e (Some response) Hfits (list_elem_of_lookup_2 _ _ _ Hi) Hr)
      as [Hfits' Hans].
    assert (pending_ids (suspend (insert_alert_response (EvacuationAlert.id e) u response)
                           (handleAlertResponse_settled (EvacuationAlert.id e))
                           (with_view (setAlerts (markResponded (EvacuationAlert.id e) response)) w))
            = (pending_ids w ++ [EvacuationAlert.id e])%list) as Hids.
    { unfold pending_ids. simpl. by rewrite omap_app. }
    split; [split|].
    + simpl. intros p x [Hin| ->%list_elem_of_singleton]%elem_of_app Hx; [by apply Hhand|].
      simpl in Hx. injection Hx as <-. by exists u, response.
    + rewrite Hids. simpl. by rewrite markResponded_relabel.
    + intros j. unfold status_at. rewrite Hids. simpl.
      rewrite markResponded_relabel. apply Hans.
  - destruct (Hhand p y (list_elem_of_lookup_2 _ _ _ Hp) Hy) as (u & v & ->).
    destruct (pending_ids_settled _ _ _ _ Hp Hy) as (l1 & l2 & Hbefore & Hafter).
    unfold settle in Hsettle. rewrite Hp in Hsettle. injection Hsettle as <-.
    cbn [request resume].
    assert (∀ p' x, p' ∈ delete n (pending w) → insert_target (request p') = Some x →
              ∃ u' v', p' = mkPending (insert_alert_response x u' v')
                                      (handleAlertResponse_settled x)) as Hhand'.
    { intros p' x Hin. apply Hhand. eapply elem_of_sublist; [done|]. apply sublist_delete. }
    unfold pending_ids in Hfits. rewrite Hbefore in Hfits.
    destruct (answer (insert_alert_response y u v)) as [[d|err]|]; simpl.
    + destruct (fits_settled _ _ _ _ false Hfits) as [Hfits' Hans].
      split; [split; [done|]|].
      * unfold pending_ids. simpl. by rewrite Hafter.
      * intros j. unfold status_at, pending_ids. simpl. rewrite Hbefore, Hafter. apply Hans.
    + destruct (fits_settled _ _ _ _ true Hfits) as [Hfits' Hans].
      split; [split; [done|]|].
      * unfold pending_ids. simpl. rewrite Hafter. by rewrite revertResponded_relabel.
      * intros j. unfold status_at, pending_ids. simpl. rewrite Hbefore, Hafter.
        rewrite revertResponded_relabel. apply Hans.
    + destruct (fits_settled _ _ _ _ false Hfits) as [Hfits' Hans].
      split; [split; [done|]|].
      * unfold pending_ids. simpl. by rewrite Hafter.
      * intros j. unfold status_at, pending_ids. simpl. rewrite Hbefore, Hafter. apply Hans.
  - unfold notify. destruct (channel w); [|by split].
    destruct (fits_notified _ _ newAlert Hfits Hfresh) as [Hfits' Hans].
    simpl. split; [by split|]. intros j. apply Hans.
Qed.

Lemma coherent_ui_steps w w' :
  rtc (ui_step fresh_alert) w w' → coherent w →
  coherent w' ∧
  ∀ j, status_at w j = Some Status.Answered → status_at w' j = Some Status.Answered.
Proof.
  induction 1 as [w|w w1 w2 Hstep _ IH]; intros Hcoh; [by split|].
  destruct (coherent_ui_step w w1 Hcoh Hstep) as [Hcoh1 Hans1].
  destruct (IH Hcoh1) as [Hcoh2 Hans2]. split; [done|]. intros j Hj. by apply Hans2, Hans1.
Qed.

(** C6 as stated fails.  Alert a1 is loaded without a response; the user
    answers it and the insert is acknowledged, so its entry is [Answered].
    A notification then carries a1 again: the new head entry has its
    buttons.  The user clicks one, the insert comes back with an error, and
    the revert, which goes by id, sets [responded] to false on the
    acknowledged entry as well. *)
Lemma answered_entry_reverted_after_repeated_id :
  ∃ w1 w2,
    steps [Mount;
           Settle 0 (Sample.loads [Sample.alert1] []);
           Settle 0 (Sample.loads [Sample.alert1] []);
           Settle 0 (Sample.loads [Sample.alert1] []);
           Click 0 yes;
           Settle 0 (Sample.loads [Sample.alert1] [])]
          (initialWorld (Some Sample.user1)) = Some w1 ∧
    alerts (view w1)
    = [ {| EvacuationAlert.alert := Sample.alert1; EvacuationAlert.responded := true;
           EvacuationAlert.response := Some yes |} ] ∧
    pending w1 = [] ∧
    status_at w1 0 = Some Status.Answered ∧
    steps [Notification Sample.alert1; Click 0 yes; Settle 0 Sample.refuses] w1 = Some w2 ∧
    rtc (ui_step any_alert) w1 w2 ∧
    alerts (view w2)
    = [ {| EvacuationAlert.alert := Sample.alert1; EvacuationAlert.responded := false;
           EvacuationAlert.response := None |};
        {| EvacuationAlert.alert := Sample.alert1; EvacuationAlert.responded := false;
           EvacuationAlert.response := None |} ] ∧
    status_at w2 0 = Some Status.Unanswered.
Proof.
  eexists _, _.
  split; [vm_compute; reflexivity|].
  split; [reflexivity|].
  split; [reflexivity|].
  split; [reflexivity|].
  split; [vm_compute; reflexivity|].
  split; [|split; reflexivity].
  eapply rtc_l.
  { apply (ui_notified any_alert _ Sample.alert1); [by eexists|exact I]. }
  eapply rtc_l.
  { apply (ui_submit any_alert _ 0 yes). vm_compute. reflexivity. }
  eapply rtc_l.
  { eapply (ui_settled any_alert _ 0 Sample.refuses).
    - vm_compute. reflexivity.
    - by eexists.
    - vm_compute. reflexivity. }
  apply rtc_refl.
Qed.

(** C6, amended.  Take the component with the list as a load left it and no
    insert waiting, and let it see clicks on shown buttons, inserts
    settling either way, and notifications whose id is not yet in the list.
    An entry that is [Answered] at some point of such a run is [Answered]
    at every later point: its [responded] stays true. *)
Theorem answered_is_terminal_when_ids_do_not_repeat
    (w0 w w' : World) (alertsData : list Alert.t)
    (responsesData : list AlertResponseRow.t) (j : nat) :
  pending_ids w0 = [] →
  alerts (view w0) = enrichedAlerts alertsData responsesData →
  rtc (ui_step fresh_alert) w0 w →
  status_at w j = Some Status.Answered →
  rtc (ui_step fresh_alert) w w' →
  status_at w' j = Some Status.Answered ∧
  ∃ e, entry (alerts (view w')) j = Some e ∧ EvacuationAlert.responded e = true.
Proof.
  intros Hp Ha Hrun Hj Hrun'.
  pose proof (coherent_loaded w0 alertsData responsesData Hp Ha) as Hcoh0.
  destruct (coherent_ui_steps w0 w Hrun Hcoh0) as [Hcoh _].
  destruct (coherent_ui_steps w w' Hrun' Hcoh) as [_ Hans].
  specialize (Hans j Hj). split; [done|].
  apply answered_inv in Hans as (e & He & Hr & _). eauto.
Qed.

Lemma answered_is_terminal_when_ids_do_not_repeat_witness :
  status_at SampleRun.submitted 0 = Some Status.Answered.
Proof.
  refine (proj1 (answered_is_terminal_when_ids_do_not_repeat
                   SampleRun.loaded SampleRun.loaded SampleRun.submitted
                   [Sample.alert1] [Sample.row1] 0 eq_refl eq_refl _ eq_refl _)).
  - apply rtc_refl.
  - eapply rtc_l.
    { apply (ui_notified fresh_alert _ Sample.alert2); [by eexists|].
      unfold fresh_alert. apply (bool_decide_unpack _). vm_compute. exact I. }
    eapply rtc_l.
    { apply (ui_submit fresh_alert _ 0 no). reflexivity. }
    apply rtc_refl.
Defined.

Section Sent.
Variable Q : Request → Prop.
Variable u : option User.t.
Hypothesis load_sends : ∀ q, may_send (fetchInitialData u) q → Q q.
Hypothesis submit_sends :
  ∀ alertId response q, may_send (handleAlertResponse u alertId response) q → Q q.

Lemma run_sends_only p w :
  (∀ q, may_send p q → Q q) → sends_only Q w → sends_only Q (run p w).
Proof.
  revert w. induction p as [|f k IH|q k IH]; intros w Hp [Hsent Hpend]; simpl.
  - done.
  - apply IH; [done|]. by split.
  - split; simpl.
    + intros q' [Hin| ->%list_elem_of_singleton]%elem_of_app; [by apply Hsent|].
      apply Hp. by left.
    + intros p [Hin| ->%list_elem_of_singleton]%elem_of_app r q'; [by apply Hpend|].
      simpl. intros Hq'. apply Hp. right. by exists r.
Qed.

Lemma step_sends_only e w w' :
  user w = u → sends_only Q w → step e w = Some w' → sends_only Q w'.
Proof.
  intros Hu Hs. destruct e as [| |a|i v|n answer]; simpl.
  - destruct (channel w); [done|]. intros [= <-]. unfold mount.
    destruct (run_sends_only (fetchInitialData (user w)) w) as [H1 H2]; [by rewrite Hu|done|].
    by split.
  - destruct (channel w); [|done]. by intros [= <-].
  - intros [= <-]. unfold notify. destruct (channel w); [|done].
    apply run_sends_only; [|done]. simpl. tauto.
  - unfold click. destruct (channel w); [|done]. destruct (loading (view w)); [done|].
    destruct (alerts (view w) !! i) as [e|]; [|done].
    destruct (EvacuationAlert.responded e); [done|]. intros [= <-].
    apply run_sends_only; [|done]. rewrite Hu. apply submit_sends.
  - unfold settle. destruct (pending w !! n) as [p|] eqn:Hp; [|done]. intros [= <-].
    destruct Hs as [Hsent Hpend]. apply run_sends_only.
    + apply Hpend. by eapply list_elem_of_lookup_2.
    + split; [done|]. simpl. intros p' Hin. apply Hpend.
      eapply elem_of_sublist; [done|]. apply sublist_delete.
Qed.

Lemma steps_sends_only es w w' :
  user w = u → sends_only Q w → steps es w = Some w' → sends_only Q w'.
Proof.
  revert w. induction es as [|e es IH]; intros w Hu Hs; simpl.
  - by intros [= <-].
  - destruct (step e w) as [w1|] eqn:Hstep; [|done].
    apply IH; [|by eapply step_sends_only].
    by rewrite (step_user e w w1 Hstep).
Qed.
End Sent.

(** C7. Whatever events the component goes through, every request it has
    sent is a select or an insert into [alert_responses] of exactly
    [alert_id], [user_id] and [response]; it never sends an update or a
    delete.  A submit sends that insert once, whatever the outcome.  Among
    the table writes of the whole application, the only one that names
    [alert_responses] is this insert. *)
Theorem only_write_is_response_insert (u : option User.t) (es : list Event) (w : World) :
  steps es (initialWorld u) = Some w →
  (∀ q, q ∈ sent w → read_or_response_insert u q) ∧
  (∀ user alertId response answer w1,
     sent (complete (handleAlertResponse (Some user) alertId response) answer w1)
     = (sent w1 ++ [insert_alert_response alertId user response])%list) ∧
  (∀ site, site ∈ write_call_sites → site.1.2 = "alert_responses" →
           site = ("EmergencyEvacuation", "alert_responses", WInsert)).
Proof.
  intros Hsteps. split; [|split].
  - refine (proj1 (steps_sends_only (read_or_response_insert u) u _ _ es
                     (initialWorld u) w eq_refl _ Hsteps)).
    + destruct u as [user|]; simpl; [|by intros ? []].
      intros q [->|[[[alertsData|ea]|] Hq]]; simpl in *; try tauto.
      all: destruct Hq as [->|[[[responsesData|er]|] Hq]]; simpl in *; try tauto.
      destruct Hq as [->|[[[sheltersData|es']|] Hq]]; simpl in *; tauto.
    + destruct u as [user|]; simpl; [|by intros ? ? ? []].
      intros alertId response q [->|[[[d|err]|] Hq]]; simpl in *; try tauto.
      by exists user, alertId, response.
    + split; simpl; [intros q Hq; inversion Hq|intros p Hp; inversion Hp].
  - intros user alertId response answer w1. simpl.
    by destruct (answer (insert_alert_response alertId user response)) as [[d|err]|].
  - intros site Hsite Htable. unfold write_call_sites in Hsite.
    repeat (apply elem_of_cons in Hsite as [->|Hsite]; [done || discriminate Htable|]).
    inversion Hsite.
Qed.

Lemma only_write_is_response_insert_witness :
  ∃ w, steps [Mount; Settle 0 (Sample.loads [] []); Settle 0 (Sample.loads [] []);
              Settle 0 (Sample.loads [] []); Notification Sample.alert2; Click 0 no]
             (initialWorld (Some Sample.user1)) = Some w ∧
       sent w = [select_alerts; select_alert_responses Sample.user1; select_shelters;
                 insert_alert_response "a2" Sample.user1 no] ∧
       ∀ q, q ∈ sent w → read_or_response_insert (Some Sample.user1) q.
Proof.
  eexists. split; [vm_compute; reflexivity|]. split; [reflexivity|].
  refine (proj1 (only_write_is_response_insert (Some Sample.user1)
                   [Mount; Settle 0 (Sample.loads [] []); Settle 0 (Sample.loads [] []);
                    Settle 0 (Sample.loads [] []); Notification Sample.alert2; Click 0 no]
                   _ _)).
  vm_compute. reflexivity.
Defined.

(** ** Further properties of the load *)

Lemma labelled_enrichedAlerts alertsData responsesData s :
  labelled (setAlerts (λ _, enrichedAlerts alertsData responsesData) s).
Proof.
  intros e He. simpl in He. unfold enrichedAlerts in He.
  apply list_elem_of_fmap in He as (a & -> & _). simpl.
  unfold Map_get. apply Map_has_true.
Qed.

Lemma labelled_markResponded alertId response s :
  labelled s → labelled (setAlerts (markResponded alertId response) s).
Proof.
  intros Hl e He. simpl in He. unfold markResponded in He.
  apply list_elem_of_fmap in He as (a & -> & Ha).
  destruct (String.eqb _ _); [|by apply Hl]. simpl. split; eauto.
Qed.

Lemma labelled_revertResponded alertId s :
  labelled s → labelled (setAlerts (revertResponded alertId) s).
Proof.
  intros Hl e He. simpl in He. unfold revertResponded in He.
  apply list_elem_of_fmap in He as (a & -> & Ha).
  destruct (String.eqb _ _); [|by apply Hl]. simpl. split; [done|].
  intros [? ?]; discriminate.
Qed.

Lemma reachable_labelled w : reachable w → labelled (view w).
Proof.
  apply (reachable_keeps labelled).
  - intros [u|]; [|done]. each_setter; try (intros s Hs; exact Hs).
    intros; apply labelled_enrichedAlerts.
  - intros [u|] alertId response; [|done]. each_setter; try (intros s Hs; exact Hs).
    + intros; by apply labelled_markResponded.
    + intros; by apply labelled_revertResponded.
  - intros newAlert. each_setter.
    intros s Hl e He. simpl in He. apply elem_of_cons in He as [->|He]; [|by apply Hl].
    simpl. split; [done|]. intros [? ?]; discriminate.
  - intros e He. inversion He.
Qed.

(** X1. In every state the component can reach, an entry has [responded]
    true exactly when a response value is attached to it, and false
    exactly when none is. *)
Theorem responded_iff_response_attached (w : World) :
  reachable w →
  ∀ e, e ∈ alerts (view w) →
       (EvacuationAlert.responded e = true ↔ is_Some (EvacuationAlert.response e)) ∧
       (EvacuationAlert.responded e = false ↔ EvacuationAlert.response e = None).
Proof.
  intros Hreach e He. pose proof (reachable_labelled w Hreach e He) as Hl.
  split; [exact Hl|].
  destruct Hl as [Hl1 Hl2].
  destruct (EvacuationAlert.responded e), (EvacuationAlert.response e) as [v|];
    split; try done.
  - intros _. destruct (Hl1 eq_refl). discriminate.
  - intros _. assert (false = true) by (apply Hl2; by eexists). discriminate.
Qed.

Lemma responded_iff_response_attached_witness :
  ∃ w, steps [Mount; Settle 0 (Sample.loads [Sample.alert1] [Sample.row1]);
              Settle 0 (Sample.loads [Sample.alert1] [Sample.row1]);
              Settle 0 (Sample.loads [Sample.alert1] [Sample.row1]);
              Notification Sample.alert2; Click 0 no]
             (initialWorld (Some Sample.user1)) = Some w ∧
       ∀ e, e ∈ alerts (view w) →
            (EvacuationAlert.responded e = true ↔ is_Some (EvacuationAlert.response e)) ∧
            (EvacuationAlert.responded e = false ↔ EvacuationAlert.response e = None).
Proof.
  eexists. split; [vm_compute; reflexivity|].
  apply responded_iff_response_attached.
  exists (Some Sample.user1),
         [Mount; Settle 0 (Sample.loads [Sample.alert1] [Sample.row1]);
          Settle 0 (Sample.loads [Sample.alert1] [Sample.row1]);
          Settle 0 (Sample.loads [Sample.alert1] [Sample.row1]);
          Notification Sample.alert2; Click 0 no].
  vm_compute. reflexivity.
Defined.

Lemma Map_new_last entries1 k v entries2 :
  k ∉ entries2.*1 →
  Map_new (entries1 ++ (k, v) :: entries2) !! k = Some v.
Proof.
  induction entries2 as [|[k' v'] entries2 IH] using rev_ind; intros Hk.
  - rewrite Map_new_snoc. apply lookup_insert_eq.
  - rewrite fmap_app in Hk. apply not_elem_of_app in Hk as [Hk Hk'].
    rewrite app_comm_cons, app_assoc, Map_new_snoc.
    rewrite lookup_insert_ne; [by apply IH|].
    intros ->. apply Hk'. simpl. left.
Qed.

(** X2. When several fetched response rows carry the same alert id, the
    entry of that alert gets the value of the last of them. *)
Theorem load_takes_last_row_of_alert
    (alertsData : list Alert.t) (rows1 rows2 : list AlertResponseRow.t)
    (r : AlertResponseRow.t) (A : EvacuationAlert.t) :
  (∀ r', r' ∈ rows2 → AlertResponseRow.alert_id r' ≠ AlertResponseRow.alert_id r) →
  A ∈ enrichedAlerts alertsData (rows1 ++ r :: rows2) →
  EvacuationAlert.id A = AlertResponseRow.alert_id r →
  EvacuationAlert.responded A = true ∧
  EvacuationAlert.response A = Some (AlertResponseRow.response r).
Proof.
  intros Hlast HA Hid. unfold enrichedAlerts in HA.
  apply list_elem_of_fmap in HA as (a & -> & _).
  unfold EvacuationAlert.id in Hid.
  cbn [EvacuationAlert.alert EvacuationAlert.responded EvacuationAlert.response] in *.
  rewrite Hid.
  assert (userResponses (rows1 ++ r :: rows2) !! AlertResponseRow.alert_id r
          = Some (AlertResponseRow.response r)) as Hget.
  { unfold userResponses. rewrite fmap_app, fmap_cons. apply Map_new_last.
    rewrite <- list_fmap_compose.
    intros (r' & Heq & Hr')%list_elem_of_fmap. simpl in Heq.
    by apply (Hlast r' Hr'). }
  unfold Map_has, Map_get. unfold AlertResponse in *. by rewrite Hget.
Qed.

Lemma load_takes_last_row_of_alert_witness :
  EvacuationAlert.response
    {| EvacuationAlert.alert := Sample.alert1; EvacuationAlert.responded := true;
       EvacuationAlert.response := Some no |}
  = Some no.
Proof.
  refine (proj2 (load_takes_last_row_of_alert [Sample.alert1] [Sample.row1] []
                   (AlertResponseRow.mk "a1" "2025-07-16T12:09:00Z" 2 no "u1")
                   {| EvacuationAlert.alert := Sample.alert1;
                      EvacuationAlert.responded := true;
                      EvacuationAlert.response := Some no |} _ _ eq_refl)).
  - intros r' Hr'. inversion Hr'.
  - vm_compute. left.
Defined.

Lemma steps_app es1 es2 w :
  steps (es1 ++ es2) w = steps es1 w ≫= steps es2.
Proof.
  revert w. induction es1 as [|e es1 IH]; intros w; simpl; [done|].
  destruct (step e w); [apply IH|done].
Qed.

Lemma notifications_prepend (news : list Alert.t) (w : World) :
  is_Some (channel w) →
  ∃ w', steps (Notification <$> news) w = Some w' ∧
        pending w' = pending w ∧ sent w' = sent w ∧
        channel w' = channel w ∧ user w' = user w ∧
        alerts (view w')
        = (((λ newAlert, {| EvacuationAlert.alert := newAlert;
                            EvacuationAlert.responded := false;
                            EvacuationAlert.response := None |}) <$> reverse news)
           ++ alerts (view w))%list.
Proof.
  revert w. induction news as [|a news IH]; intros w Hc.
  - exists w. by repeat split.
  - cbn [fmap list_fmap steps step]. unfold notify. destruct Hc as [c Hc]. rewrite Hc.
    destruct (IH (run (onAlertInsert a) w)) as (w' & Hs & Hp & Hsent & Hch & Hu & Ha).
    { simpl. by rewrite Hc. }
    exists w'. split; [exact Hs|]. simpl in *. rewrite Hp, Hsent, Hch, Hu, Ha.
    repeat split; [done|]. by rewrite reverse_cons, fmap_app, <- app_assoc.
Qed.

(** X3. The load replaces the list: alerts announced between the mount and
    the moment the load commits are in the list for a while and are gone
    once the two fetches have come back, unless the fetch returned them. *)
Theorem load_discards_alerts_notified_meanwhile
    (u : User.t) (news : list Alert.t) (answer : Answer)
    (alertsData : list Alert.t) (responsesData : list AlertResponseRow.t) :
  answer select_alerts = Resolved (Success alertsData) →
  answer (select_alert_responses u) = Resolved (Success responsesData) →
  ∃ w0 w,
    steps (Mount :: (Notification <$> news)) (initialWorld (Some u)) = Some w0 ∧
    length (alerts (view w0)) = length news ∧
    steps [Settle 0 answer; Settle 0 answer] w0 = Some w ∧
    alerts (view w) = enrichedAlerts alertsData responsesData.
Proof.
  intros Ha Hr. cbn [steps step initialWorld channel].
  destruct (notifications_prepend news (mount (initialWorld (Some u))))
    as (w0 & Hs & Hp & Hsent & Hch & Hu & Hal); [by eexists|].
  exists w0. eexists. split; [exact Hs|]. split.
  { rewrite Hal. simpl. by rewrite app_nil_r, length_fmap, length_reverse. }
  cbn [steps step]. unfold settle. rewrite Hp. cbn. rewrite Ha. cbn. rewrite Hr. cbn.
  split; reflexivity.
Qed.

Lemma load_discards_alerts_notified_meanwhile_witness :
  ∃ w0 w,
    steps (Mount :: (Notification <$> [Sample.alert2])) (initialWorld (Some Sample.user1))
    = Some w0 ∧
    length (alerts (view w0)) = 1 ∧
    steps [Settle 0 (Sample.loads [Sample.alert1] []);
           Settle 0 (Sample.loads [Sample.alert1] [])] w0 = Some w ∧
    alerts (view w) = enrichedAlerts [Sample.alert1] [].
Proof.
  exact (load_discards_alerts_notified_meanwhile Sample.user1 [Sample.alert2]
           (Sample.loads [Sample.alert1] []) [Sample.alert1] [] eq_refl eq_refl).
Defined.

(** ** Further properties of the submit *)

(** X4. Take a list in which no id repeats, so that the cards on screen,
    which are keyed by id, are the cards of its entries.  A click on an
    entry's button hides that entry's buttons: no second click on it is
    possible while the insert is waiting, nor after it has been
    acknowledged; once the insert has come back with an error the buttons
    are there again and the user can retry.  The ids stay without repeats
    throughout. *)
Theorem submit_hides_buttons_until_failure
    (w w1 : World) (u : User.t) (i : nat) (e : EvacuationAlert.t) (v : AlertResponse) :
  NoDup (ids (alerts (view w))) →
  user w = Some u →
  alerts (view w) !! i = Some e →
  click i v w = Some w1 →
  (NoDup (ids (alerts (view w1))) ∧ ∀ v', click i v' w1 = None) ∧
  (∀ answer d,
     answer (insert_alert_response (EvacuationAlert.id e) u v) = Resolved (Success d) →
     ∃ w2, settle (length (pending w)) answer w1 = Some w2 ∧
           NoDup (ids (alerts (view w2))) ∧
           ∀ v', click i v' w2 = None) ∧
  (∀ answer err,
     answer (insert_alert_response (EvacuationAlert.id e) u v) = Resolved (Failure err) →
     ∃ w2, settle (length (pending w)) answer w1 = Some w2 ∧
           NoDup (ids (alerts (view w2))) ∧
           ∀ v', is_Some (click i v' w2)).
Proof.
  intros Hnd Hu Hi Hclick. unfold click in Hclick. rewrite Hi, Hu in Hclick.
  destruct (channel w) as [c|] eqn:Hc; [|done].
  destruct (loading (view w)) eqn:Hl; [done|].
  destruct (EvacuationAlert.responded e) eqn:Hr; [done|].
  injection Hclick as <-. cbn [handleAlertResponse run].
  assert (∀ answer,
            settle (length (pending w)) answer
              (suspend (insert_alert_response (EvacuationAlert.id e) u v)
                 (handleAlertResponse_settled (EvacuationAlert.id e))
                 (with_view (setAlerts (markResponded (EvacuationAlert.id e) v)) w))
            = Some (run (handleAlertResponse_settled (EvacuationAlert.id e)
                           (answer (insert_alert_response (EvacuationAlert.id e) u v)))
                        (send (insert_alert_response (EvacuationAlert.id e) u v)
                           (with_view (setAlerts (markResponded (EvacuationAlert.id e) v)) w))))
    as Hsettle.
  { intros answer. unfold settle, suspend. cbn [pending].
    rewrite (list_lookup_middle (pending w) [] _ (length (pending w)) eq_refl).
    cbn [request resume]. by rewrite delete_middle, app_nil_r. }
  assert (NoDup (ids (markResponded (EvacuationAlert.id e) v (alerts (view w))))) as Hnd1.
  { by rewrite markResponded_relabel, relabel_ids. }
  assert (NoDup (ids (revertResponded (EvacuationAlert.id e)
                        (markResponded (EvacuationAlert.id e) v (alerts (view w)))))) as Hnd2.
  { by rewrite revertResponded_relabel, relabel_ids. }
  split; [|split].
  - split; [exact Hnd1|].
    intros v'. unfold click. cbn. rewrite Hc, Hl, markResponded_lookup, Hi. cbn.
    by rewrite String.eqb_refl.
  - intros answer d Hans. eexists. split; [apply Hsettle|]. rewrite Hans. cbn.
    split; [exact Hnd1|].
    intros v'. unfold click. cbn. rewrite Hc, Hl, markResponded_lookup, Hi. cbn.
    by rewrite String.eqb_refl.
  - intros answer err Hans. eexists. split; [apply Hsettle|]. rewrite Hans. cbn.
    split; [exact Hnd2|].
    intros v'. unfold click. cbn.
    rewrite Hc, Hl, revertResponded_lookup, markResponded_lookup, Hi. cbn.
    rewrite String.eqb_refl. cbn. unfold EvacuationAlert.id at 1. cbn.
    fold (EvacuationAlert.id e). rewrite String.eqb_refl. cbn. by eexists.
Qed.

Lemma submit_hides_buttons_until_failure_witness :
  click 0 yes (run (handleAlertResponse (Some Sample.user1) "a2" no) SampleRun.announced)
  = None.
Proof.
  refine (proj2 (proj1 (submit_hides_buttons_until_failure SampleRun.announced _
                          Sample.user1 0
                          {| EvacuationAlert.alert := Sample.alert2;
                             EvacuationAlert.responded := false;
                             EvacuationAlert.response := None |}
                          no _ eq_refl eq_refl eq_refl)) yes).
  apply (bool_decide_unpack _). vm_compute. exact I.
Defined.

Lemma relabel_relabel x b1 r1 b2 r2 l :
  relabel x b2 r2 (relabel x b1 r1 l) = relabel x b2 r2 l.
Proof.
  unfold relabel. rewrite <- list_fmap_compose. apply list_fmap_ext.
  intros i e _. simpl. unfold EvacuationAlert.id.
  destruct (String.eqb (Alert.id (EvacuationAlert.alert e)) x) eqn:Hx; simpl; by rewrite Hx.
Qed.

Lemma relabel_lookup_same x b r l i e :
  l !! i = Some e → EvacuationAlert.id e = x →
  relabel x b r l !! i
  = Some {| EvacuationAlert.alert := EvacuationAlert.alert e;
            EvacuationAlert.responded := b;
            EvacuationAlert.response := r |}.
Proof.
  intros Hi He. unfold relabel. rewrite list_lookup_fmap, Hi. simpl.
  by rewrite He, String.eqb_refl.
Qed.

(** X5. The submit handler never clears the error message: when a submit
    has failed and the retry for the same alert succeeds, the entries of
    that alert are responded with the retried value and the failure message
    of the first attempt is still set. *)
Theorem failure_message_outlives_successful_retry
    (w : World) (u : User.t) (alertId : string) (v v' : AlertResponse)
    (fails succeeds : Answer) (err : string) (d : unit) :
  fails (insert_alert_response alertId u v) = Resolved (Failure err) →
  succeeds (insert_alert_response alertId u v') = Resolved (Success d) →
  let w1 := complete (handleAlertResponse (Some u) alertId v) fails w in
  let w2 := complete (handleAlertResponse (Some u) alertId v') succeeds w1 in
  error (view w1) = Some "Failed to submit response. Please try again." ∧
  error (view w2) = Some "Failed to submit response. Please try again." ∧
  ∀ i e, alerts (view w) !! i = Some e → EvacuationAlert.id e = alertId →
         alerts (view w2) !! i
         = Some {| EvacuationAlert.alert := EvacuationAlert.alert e;
                   EvacuationAlert.responded := true;
                   EvacuationAlert.response := Some v' |}.
Proof.
  intros Hf Hs w1 w2. subst w1 w2. cbn. rewrite Hf. cbn. rewrite Hs. cbn.
  repeat split. intros i e Hi He.
  rewrite !markResponded_relabel, revertResponded_relabel, !relabel_relabel.
  by apply relabel_lookup_same.
Qed.

Lemma failure_message_outlives_successful_retry_witness :
  error (view (complete (handleAlertResponse (Some Sample.user1) "a2" yes)
                 (Sample.loads [] [])
                 (complete (handleAlertResponse (Some Sample.user1) "a2" no)
                    Sample.refuses SampleRun.announced)))
  = Some "Failed to submit response. Please try again.".
Proof.
  exact (proj1 (proj2 (failure_message_outlives_successful_retry SampleRun.announced
                         Sample.user1 "a2" no yes Sample.refuses (Sample.loads [] [])
                         "duplicate key value" () eq_refl eq_refl))).
Defined.

(** X6. A submit goes by alert id alone: every entry carrying the id is
    marked, however many there are, and every other entry is left as it is.
    When no entry carries the id the list does not change, and the insert
    is sent all the same. *)
Theorem submit_marks_every_entry_with_the_id
    (w : World) (u : User.t) (alertId : string) (v : AlertResponse) :
  let w' := run (handleAlertResponse (Some u) alertId v) w in
  (∀ i e, alerts (view w) !! i = Some e → EvacuationAlert.id e = alertId →
          alerts (view w') !! i
          = Some {| EvacuationAlert.alert := EvacuationAlert.alert e;
                    EvacuationAlert.responded := true;
                    EvacuationAlert.response := Some v |}) ∧
  (∀ i e, alerts (view w) !! i = Some e → EvacuationAlert.id e ≠ alertId →
          alerts (view w') !! i = Some e) ∧
  (alertId ∉ ids (alerts (view w)) → alerts (view w') = alerts (view w)) ∧
  sent w' = (sent w ++ [insert_alert_response alertId u v])%list.
Proof.
  intros w'. subst w'. cbn. split; [|split; [|split; [|done]]].
  - intros i e Hi He. rewrite markResponded_lookup, Hi. cbn.
    by rewrite He, String.eqb_refl.
  - intros i e Hi He. rewrite markResponded_lookup, Hi. cbn.
    by apply String.eqb_neq in He as ->.
  - intros Hnot. unfold markResponded.
    rewrite <- (list_fmap_id (alerts (view w))) at 2.
    apply list_fmap_ext. intros i e Hi. simpl.
    destruct (String.eqb_spec (EvacuationAlert.id e) alertId) as [Heq|]; [|done].
    exfalso. apply Hnot. rewrite <- Heq.
    apply list_elem_of_fmap_2. by eapply list_elem_of_lookup_2.
Qed.

Lemma submit_marks_every_entry_with_the_id_witness :
  alerts (view (run (handleAlertResponse (Some Sample.user1) "a9" yes) SampleRun.announced))
  = alerts (view SampleRun.announced).
Proof.
  refine (proj1 (proj2 (proj2 (submit_marks_every_entry_with_the_id SampleRun.announced
                                 Sample.user1 "a9" yes))) _).
  apply (bool_decide_unpack _). vm_compute. exact I.
Defined.

(** X7. Whatever its outcome, a submit neither adds, removes nor reorders
    entries, changes no alert row, and touches none of the shelters, the
    loading flag and the query form. *)
Theorem submit_keeps_rows_and_other_cells
    (u : option User.t) (alertId : string) (v : AlertResponse)
    (answer : Answer) (w : World) :
  let w' := complete (handleAlertResponse u alertId v) answer w in
  EvacuationAlert.alert <$> alerts (view w') = EvacuationAlert.alert <$> alerts (view w) ∧
  shelters (view w') = shelters (view w) ∧
  loading (view w') = loading (view w) ∧
  helpQuery (view w') = helpQuery (view w) ∧
  querySubmitted (view w') = querySubmitted (view w).
Proof.
  intros w'. subst w'.
  assert (∀ b r l, EvacuationAlert.alert <$> relabel alertId b r l = EvacuationAlert.alert <$> l)
    as Hrows.
  { intros b r l. unfold relabel. rewrite <- list_fmap_compose. apply list_fmap_ext.
    intros i e _. simpl. by destruct (String.eqb _ _). }
  destruct u as [u|]; cbn; [|done].
  destruct (answer (insert_alert_response alertId u v)) as [[d|err]|]; cbn.
  - by rewrite markResponded_relabel, Hrows.
  - by rewrite revertResponded_relabel, markResponded_relabel, !Hrows.
  - by rewrite markResponded_relabel, Hrows.
Qed.

(** X8. Settling an insert with anything but a returned error changes no
    state cell and sends nothing: an acknowledgement leaves the optimistic
    state in place, and so does an exception out of the awaited call, which
    the handler does not catch. *)
Theorem only_returned_error_reverts
    (w : World) (n : nat) (u : User.t) (alertId : string)
    (v : AlertResponse) (answer : Answer) :
  pending w !! n = Some (mkPending (insert_alert_response alertId u v)
                                   (handleAlertResponse_settled alertId)) →
  (∀ err, answer (insert_alert_response alertId u v) ≠ Resolved (Failure err)) →
  ∃ w', settle n answer w = Some w' ∧
        view w' = view w ∧ sent w' = sent w ∧ pending w' = delete n (pending w).
Proof.
  intros Hp Hans. unfold settle. rewrite Hp. cbn [request resume].
  destruct (answer (insert_alert_response alertId u v)) as [[d|err]|]; cbn.
  - eexists. by repeat split.
  - by destruct (Hans err).
  - eexists. by repeat split.
Qed.

Lemma only_returned_error_reverts_witness :
  ∃ w', settle 0 (Sample.loads [] [])
          (run (handleAlertResponse (Some Sample.user1) "a2" no) SampleRun.announced)
        = Some w' ∧
        view w' = view (run (handleAlertResponse (Some Sample.user1) "a2" no)
                          SampleRun.announced).
Proof.
  destruct (only_returned_error_reverts
              (run (handleAlertResponse (Some Sample.user1) "a2" no) SampleRun.announced)
              0 Sample.user1 "a2" no (Sample.loads [] []) eq_refl)
    as (w' & Hs & Hv & _).
  - intros err. discriminate.
  - exists w'. by split.
Defined.

(** ** Further properties of the load: requests and messages *)

(** X9. The load sends its fetches one after the other and each at most
    once: the alerts fetch first; then the responses fetch, also when the
    alerts fetch came back with an error (but not when it threw); and the
    shelters fetch only when both came back with data. *)
Theorem load_request_sequence
    (u : User.t) (a : Outcome (list Alert.t)) (r : Outcome (list AlertResponseRow.t))
    (s : Outcome (list Shelter.t)) (i : Outcome unit) (w : World) :
  sent (complete (fetchInitialData (Some u)) (answer_of a r s i) w)
  = (sent w ++
       match a with
       | Rejected => [select_alerts]
       | Resolved ra =>
         match ra, r with
         | Success _, Resolved (Success _) =>
           [select_alerts; select_alert_responses u; select_shelters]
         | _, _ => [select_alerts; select_alert_responses u]
         end
       end)%list.
Proof.
  destruct a as [[alertsData|ea]|]; destruct r as [[responsesData|er]|];
    destruct s as [[sheltersData|es]|]; cbn; by rewrite <- ?app_assoc.
Qed.

(** X10. Every load ends with [loading] false.  Its message depends only on
    where it failed, never on what the backend said: a returned error of
    the alerts fetch or of the responses fetch gives the alerts message, a
    returned error of the shelters fetch gives the shelters message, an
    exception gives the unexpected-error message, and a load whose three
    fetches return data leaves no message. *)
Theorem load_error_message
    (u : User.t) (a : Outcome (list Alert.t)) (r : Outcome (list AlertResponseRow.t))
    (s : Outcome (list Shelter.t)) (i : Outcome unit) (w : World) :
  let w' := complete (fetchInitialData (Some u)) (answer_of a r s i) w in
  loading (view w') = false ∧
  error (view w')
  = match a, r with
    | Rejected, _ | Resolved _, Rejected =>
      Some "An unexpected error occurred. Please try again later."
    | Resolved (Success _), Resolved (Success _) =>
      match s with
      | Rejected => Some "An unexpected error occurred. Please try again later."
      | Resolved (Failure _) => Some "Failed to fetch shelters data. Please try again later."
      | Resolved (Success _) => None
      end
    | Resolved _, Resolved _ =>
      Some "Failed to fetch alerts data. Please try again later."
    end.
Proof.
  intros w'. subst w'.
  destruct a as [[alertsData|ea]|]; destruct r as [[responsesData|er]|];
    destruct s as [[sheltersData|es]|]; by cbn.
Qed.

(** ** Unmounting and handlers in flight *)

Lemma run_with_channel p c w : run p (with_channel c w) = with_channel c (run p w).
Proof.
  revert w. induction p as [|f k IH|q k IH]; intros w; simpl; [done| |done].
  apply (IH (with_view f w)).
Qed.

(** X11. The cleanup cancels nothing but the subscription: a request that
    is waiting when the component unmounts settles afterwards exactly as it
    would have, state writes included.  A load in flight at unmount still
    commits its alert list. *)
Theorem unmount_does_not_cancel_pending_handlers (w : World) (n : nat) (answer : Answer) :
  settle n answer (unmount w) = unmount <$> settle n answer w ∧
  ∀ u alertsData responsesData,
    user w = Some u → channel w = None → pending w = [] →
    answer select_alerts = Resolved (Success alertsData) →
    answer (select_alert_responses u) = Resolved (Success responsesData) →
    ∃ w', steps [Mount; Unmount; Settle 0 answer; Settle 0 answer] w = Some w' ∧
          channel w' = None ∧
          alerts (view w') = enrichedAlerts alertsData responsesData.
Proof.
  split.
  - unfold settle, unmount. cbn [pending with_channel].
    destruct (pending w !! n) as [p|]; [|done]. cbn. f_equal.
    apply (run_with_channel _ None (with_pending (delete n (pending w)) w)).
  - intros u alertsData responsesData Hu Hc Hp Ha Hr.
    cbn [steps step]. rewrite Hc. unfold mount. rewrite Hu. cbn.
    unfold settle, unmount, suspend, with_channel, with_view. cbn. rewrite Hp. cbn.
    rewrite Ha. cbn. rewrite Hr. cbn. eexists. by repeat split.
Qed.

Lemma unmount_does_not_cancel_pending_handlers_witness :
  ∃ w', steps [Mount; Unmount; Settle 0 (Sample.loads [Sample.alert1] []);
               Settle 0 (Sample.loads [Sample.alert1] [])]
              (initialWorld (Some Sample.user1)) = Some w' ∧
        channel w' = None ∧
        alerts (view w') = enrichedAlerts [Sample.alert1] [].
Proof.
  exact (proj2 (unmount_does_not_cancel_pending_handlers (initialWorld (Some Sample.user1))
                  0 (Sample.loads [Sample.alert1] []))
               Sample.user1 [Sample.alert1] [] eq_refl eq_refl eq_refl eq_refl eq_refl).
Defined.

(** ** What the user sees *)

(** X12. Take a state the component can reach in which no id repeats, so
    that the cards on screen, which are keyed by id, are the cards of its
    entries.  The footer of each card tells the stored response: the
    buttons exactly when no response is attached, the safe note exactly for
    a [yes], the help note exactly for a [no]; and once [loading] is false
    the panel has one card per entry, in order, with that footer. *)
Theorem footer_shows_stored_response (w : World) (i : nat) (e : EvacuationAlert.t) :
  reachable w →
  NoDup (ids (alerts (view w))) →
  alerts (view w) !! i = Some e →
  ((alertFooter e = Footer.Buttons ↔ EvacuationAlert.response e = None) ∧
   (alertFooter e = Footer.SafeNote ↔ EvacuationAlert.response e = Some yes) ∧
   (alertFooter e = Footer.HelpNote ↔ EvacuationAlert.response e = Some no)) ∧
  (loading (view w) = false →
   ∃ footers, alertsPanel (view w) = Panel.Cards footers ∧
              length footers = length (alerts (view w)) ∧
              footers !! i = Some (alertFooter e)).
Proof.
  intros Hreach _ Hi.
  pose proof (reachable_labelled w Hreach e (list_elem_of_lookup_2 _ _ _ Hi)) as [Hl1 Hl2].
  split.
  - unfold alertFooter.
    destruct (EvacuationAlert.responded e), (EvacuationAlert.response e) as [[|]|]; simpl.
    + repeat split; done.
    + repeat split; done.
    + destruct (Hl1 eq_refl). discriminate.
    + assert (true = false) by (symmetry; apply Hl2; by eexists). discriminate.
    + assert (true = false) by (symmetry; apply Hl2; by eexists). discriminate.
    + repeat split; done.
  - intros Hload. unfold alertsPanel. rewrite Hload.
    destruct (alerts (view w)) as [|a l] eqn:Ha; [done|].
    rewrite bool_decide_eq_false_2 by done.
    eexists. split; [reflexivity|]. split; [by rewrite length_fmap|].
    by rewrite list_lookup_fmap, Hi.
Qed.

Lemma footer_shows_stored_response_witness :
  (alertFooter {| EvacuationAlert.alert := Sample.alert2;
                  EvacuationAlert.responded := false;
                  EvacuationAlert.response := None |} = Footer.Buttons ↔
   (None : option AlertResponse) = None) ∧
  ∃ footers, alertsPanel (view SampleRun.announced) = Panel.Cards footers ∧
             length footers = 2 ∧
             footers !! 0 = Some Footer.Buttons.
Proof.
  destruct (footer_shows_stored_response SampleRun.announced 0
              {| EvacuationAlert.alert := Sample.alert2;
                 EvacuationAlert.responded := false;
                 EvacuationAlert.response := None |}) as [[H _] Hp].
  - exists (Some Sample.user1),
           [Mount; Settle 0 (Sample.loads [Sample.alert1] [Sample.row1]);
            Settle 0 (Sample.loads [Sample.alert1] [Sample.row1]);
            Settle 0 (Sample.loads [Sample.alert1] [Sample.row1]);
            Notification Sample.alert2].
    reflexivity.
  - apply (bool_decide_unpack _). vm_compute. exact I.
  - reflexivity.
  - split; [exact H|]. exact (Hp eq_refl).
Defined.

(** X13. While the first load is in flight the panel shows the spinner.
    When the alerts fetch or the responses fetch of the first load fails,
    the panel then shows the note for an empty list, next to the error
    message. *)
Theorem failed_first_load_shows_no_active_alerts
    (u : User.t) (a : Outcome (list Alert.t)) (r : Outcome (list AlertResponseRow.t))
    (s : Outcome (list Shelter.t)) (i : Outcome unit) :
  failed a || failed r = true →
  let w' := complete (fetchInitialData (Some u)) (answer_of a r s i)
              (initialWorld (Some u)) in
  alertsPanel (view (mount (initialWorld (Some u)))) = Panel.Spinner ∧
  alertsPanel (view w') = Panel.NoActiveAlerts ∧
  is_Some (error (view w')).
Proof.
  intros Hfail w'. subst w'.
  destruct a as [[alertsData|ea]|]; destruct r as [[responsesData|er]|];
    try discriminate Hfail; cbn; repeat split; eauto.
Qed.

Lemma failed_first_load_shows_no_active_alerts_witness :
  alertsPanel (view (complete (fetchInitialData (Some Sample.user1)) Sample.refuses
                       (initialWorld (Some Sample.user1))))
  = Panel.NoActiveAlerts.
Proof.
  exact (proj1 (proj2 (failed_first_load_shows_no_active_alerts Sample.user1
                         (Resolved (Failure "network")) (Resolved (Failure "network"))
                         (Resolved (Failure "network")) Sample.conflict eq_refl))).
Defined.

(** ** Severity styling *)

(** X14. The card colour tells the four severity levels apart and gives
    none of them the fallback colour, which every other string gets.  The
    icon does not: [low] has the icon of the fallback, so a low alert and
    an alert of unknown severity carry the same icon. *)
Theorem severity_styles_distinguish_levels :
  (∀ s1 s2 : severity_level,
     getSeverityColor (severity_name s1) = getSeverityColor (severity_name s2) → s1 = s2) ∧
  (∀ s : string,
     s ∉ severity_name <$> [low; medium; high; critical] →
     getSeverityColor s = "border-gray-400 bg-gray-50" ∧
     getSeverityIcon s = getSeverityIcon (severity_name low)) ∧
  (∀ s : severity_level,
     getSeverityColor (severity_name s) ≠ "border-gray-400 bg-gray-50") ∧
  (∀ s1 s2 : severity_level,
     getSeverityIcon (severity_name s1) = getSeverityIcon (severity_name s2) → s1 = s2).
Proof.
  split; [|split; [|split]].
  - intros [] []; vm_compute; intros H; (reflexivity || discriminate H).
  - intros s Hs. cbn in Hs.
    apply not_elem_of_cons in Hs as [H1 Hs]. apply not_elem_of_cons in Hs as [H2 Hs].
    apply not_elem_of_cons in Hs as [H3 Hs]. apply not_elem_of_cons in Hs as [H4 _].
    unfold getSeverityColor, getSeverityIcon.
    apply String.eqb_neq in H1, H2, H3, H4. by rewrite H1, H2, H3, H4.
  - intros []; vm_compute; discriminate.
  - intros [] []; vm_compute; intros H; (reflexivity || discriminate H).
Qed.

Lemma severity_styles_distinguish_levels_witness :
  getSeverityColor "urgent" = "border-gray-400 bg-gray-50" ∧
  getSeverityIcon "urgent" = getSeverityIcon "low".
Proof.
  apply (proj1 (proj2 severity_styles_distinguish_levels) "urgent").
  apply (bool_decide_unpack _). vm_compute. exact I.
Defined.

(** ** The help and query portal *)

(** X15. A query that is blank once trimmed is ignored: no confirmation, the
    text stays.  Any other query shows the confirmation, empties the text
    box and sets one timer of three seconds; when it fires the form is back
    with an empty box.  Neither step touches the alerts, the shelters, the
    loading flag or the error message. *)
Theorem query_submit_confirms_then_returns_empty_form
    (trim : string → string) (s : ViewState) :
  (trim (helpQuery s) = "" → handleQuerySubmit trim s = (s, [])) ∧
  (trim (helpQuery s) ≠ "" →
   ∃ t, handleQuerySubmit trim s
        = (setHelpQuery "" (setQuerySubmitted true s), [t]) ∧
        delay t = 3000%N ∧
        querySubmitted (callback t (handleQuerySubmit trim s).1) = false ∧
        helpQuery (callback t (handleQuerySubmit trim s).1) = "" ∧
        alerts (callback t (handleQuerySubmit trim s).1) = alerts s ∧
        shelters (callback t (handleQuerySubmit trim s).1) = shelters s ∧
        loading (callback t (handleQuerySubmit trim s).1) = loading s ∧
        error (callback t (handleQuerySubmit trim s).1) = error s).
Proof.
  unfold handleQuerySubmit. split.
  - intros ->. reflexivity.
  - intros Hne. apply String.eqb_neq in Hne. rewrite Hne.
    eexists. split; [reflexivity|]. by repeat split.
Qed.

Lemma query_submit_confirms_then_returns_empty_form_witness :
  handleQuerySubmit (λ q, q) initialState = (initialState, []) ∧
  ∃ t, handleQuerySubmit (λ q, q) (setHelpQuery "We need a boat" initialState)
       = (setHelpQuery "" (setQuerySubmitted true (setHelpQuery "We need a boat" initialState)),
          [t]) ∧
       delay t = 3000%N.
Proof.
  split.
  - exact (proj1 (query_submit_confirms_then_returns_empty_form (λ q, q) initialState)
                 eq_refl).
  - destruct (proj2 (query_submit_confirms_then_returns_empty_form (λ q, q)
                       (setHelpQuery "We need a boat" initialState)))
      as (t & Hs & Hd & _).
    + discriminate.
    + exists t. by split.
Defined.

(** ** The session manager *)

(** X16. Run to its end while the provider is mounted, [initializeAuth]
    always leaves [loading] false and [initialized] true, whatever the
    backend answers.  A returned session becomes the session and its user
    the user, with no error message; a returned error leaves its message
    and a thrown one the fixed message, the user untouched. *)
Theorem initializeAuth_always_finishes (answer : Auth.Answer) (w : Auth.World) :
  Auth.mounted w = true →
  let c' := Auth.cells (Auth.complete Auth.initializeAuth answer w) in
  Auth.loading c' = false ∧
  Auth.initialized c' = true ∧
  match answer Auth.getSession with
  | Auth.Returned (Success session) =>
    Auth.session c' = session ∧ Auth.user c' = Session.user <$> session ∧
    Auth.error c' = None
  | Auth.Returned (Failure message) =>
    Auth.error c' = Some message ∧ Auth.user c' = Auth.user (Auth.cells w)
  | Auth.Threw _ =>
    Auth.error c' = Some "Failed to initialize auth" ∧
    Auth.user c' = Auth.user (Auth.cells w)
  end.
Proof.
  intros Hm c'. subst c'. cbn.
  destruct (answer Auth.getSession) as [[[s|]|message]|e]; cbn; rewrite ?Hm; cbn.
  - destruct (answer (Auth.selectProfile (User.id (Session.user s))))
      as [[data|message]|e]; cbn; rewrite ?Hm; cbn; try done.
    destruct (String.eqb _ _); cbn; rewrite ?Hm; by cbn.
  - done.
  - done.
  - done.
Qed.

Lemma initializeAuth_always_finishes_witness :
  Auth.initialized
    (Auth.cells (Auth.complete Auth.initializeAuth AuthSample.signed_in
                   AuthSample.started)) = true.
Proof.
  exact (proj1 (proj2 (initializeAuth_always_finishes AuthSample.signed_in
                         AuthSample.started eq_refl))).
Defined.

(** X17. When the session is there but its profile cannot be fetched,
    initialization hides the failure: [fetchProfile] sets the message and
    the end of [initializeAuth] clears it, so the provider comes up with a
    user, no profile and no error.  The same failure in [refreshProfile] is
    reported: the message stays, the profile is kept as it was. *)
Theorem profile_failure_hidden_at_init_reported_at_refresh
    (answer : Auth.Answer) (w : Auth.World) (s : Session.t) (message : string) :
  Auth.mounted w = true →
  answer Auth.getSession = Auth.Returned (Success (Some s)) →
  answer (Auth.selectProfile (User.id (Session.user s))) = Auth.Returned (Failure message) →
  let w1 := Auth.complete Auth.initializeAuth answer w in
  let w2 := Auth.complete (Auth.refreshProfile (Auth.user (Auth.cells w1))) answer w1 in
  (Auth.user (Auth.cells w1) = Some (Session.user s) ∧
   Auth.profile (Auth.cells w1) = None ∧
   Auth.error (Auth.cells w1) = None ∧
   Auth.initialized (Auth.cells w1) = true) ∧
  (Auth.error (Auth.cells w2) = Some message ∧
   Auth.profile (Auth.cells w2) = Auth.profile (Auth.cells w1) ∧
   Auth.loading (Auth.cells w2) = false).
Proof.
  intros Hm Hs Hp w1 w2. subst w1 w2. cbn. rewrite Hs. cbn. rewrite Hm. cbn.
  rewrite Hp. cbn. rewrite ?Hm. cbn. rewrite ?Hp. by cbn.
Qed.

Lemma profile_failure_hidden_at_init_reported_at_refresh_witness :
  Auth.error (Auth.cells (Auth.complete Auth.initializeAuth AuthSample.no_profile
                            AuthSample.started)) = None.
Proof.
  destruct (profile_failure_hidden_at_init_reported_at_refresh AuthSample.no_profile
              AuthSample.started AuthSample.session1 "no rows"
              eq_refl eq_refl eq_refl) as [(_ & _ & He & _) _].
  exact He.
Defined.

(** X18. [signOut] always ends with [loading] false.  Only an acknowledged
    sign-out clears the session, the user, the profile and the error and
    sends the browser to the sign-in page; a refused or failed one keeps
    the session, the user and the profile, sets a message and does not
    navigate. *)
Theorem signOut_clears_only_when_acknowledged (answer : Auth.Answer) (w : Auth.World) :
  let w' := Auth.complete Auth.signOut answer w in
  Auth.loading (Auth.cells w') = false ∧
  Auth.calls w' = (Auth.calls w ++ [Auth.authSignOut])%list ∧
  match answer Auth.authSignOut with
  | Auth.Returned (Success _) =>
    Auth.session (Auth.cells w') = None ∧ Auth.user (Auth.cells w') = None ∧
    Auth.profile (Auth.cells w') = None ∧ Auth.error (Auth.cells w') = None ∧
    Auth.href w' = Some "/auth"
  | _ =>
    Auth.session (Auth.cells w') = Auth.session (Auth.cells w) ∧
    Auth.user (Auth.cells w') = Auth.user (Auth.cells w) ∧
    Auth.profile (Auth.cells w') = Auth.profile (Auth.cells w) ∧
    is_Some (Auth.error (Auth.cells w')) ∧
    Auth.href w' = Auth.href w
  end.
Proof.
  intros w'. subst w'. cbn.
  destruct (answer Auth.authSignOut) as [[d|message]|[message|]]; cbn;
    repeat split; eauto.
Qed.

(** X19. The [mounted] flag guards the first await of [initializeAuth]
    only.  If the provider is cleaned up before [getSession] settles,
    nothing is written afterwards and [initialized] stays false, whatever
    the answer.  If it is cleaned up while the profile is being fetched,
    the profile is not stored, but [loading] and [initialized] are still
    written after the cleanup. *)
Theorem mounted_guards_first_await_only
    (clock : string) (answer : Auth.Answer) (s : Session.t) :
  let w0 := Auth.effect (Auth.initialWorld clock) in
  (∃ w', Auth.settle 0 answer (Auth.cleanup w0) = Some w' ∧
         Auth.cells w' = Auth.cells w0 ∧
         Auth.initialized (Auth.cells w') = false ∧
         Auth.waiting w' = []) ∧
  (answer Auth.getSession = Auth.Returned (Success (Some s)) →
   ∃ w1 w2, Auth.settle 0 answer w0 = Some w1 ∧
            Auth.calls w1 = [Auth.getSession;
                             Auth.selectProfile (User.id (Session.user s))] ∧
            Auth.settle 0 answer (Auth.cleanup w1) = Some w2 ∧
            Auth.mounted w2 = false ∧
            Auth.profile (Auth.cells w2) = None ∧
            Auth.loading (Auth.cells w2) = false ∧
            Auth.initialized (Auth.cells w2) = true).
Proof.
  intros w0. subst w0. split.
  - unfold Auth.settle. cbn.
    destruct (answer Auth.getSession) as [[session|message]|e]; cbn;
      eexists; by repeat split.
  - intros Hs. unfold Auth.settle. cbn. rewrite Hs. cbn.
    eexists _, _. split; [reflexivity|]. split; [reflexivity|].
    cbn. destruct (answer (Auth.selectProfile (User.id (Session.user s))))
      as [[data|message]|e]; cbn.
    + destruct (String.eqb _ _); cbn; by repeat split.
    + by repeat split.
    + by repeat split.
Qed.

Lemma mounted_guards_first_await_only_witness :
  ∃ w1 w2, Auth.settle 0 AuthSample.signed_in AuthSample.started = Some w1 ∧
           Auth.calls w1 = [Auth.getSession; Auth.selectProfile "u1"] ∧
           Auth.settle 0 AuthSample.signed_in (Auth.cleanup w1) = Some w2 ∧
           Auth.mounted w2 = false ∧
           Auth.profile (Auth.cells w2) = None ∧
           Auth.loading (Auth.cells w2) = false ∧
           Auth.initialized (Auth.cells w2) = true.
Proof.
  exact (proj2 (mounted_guards_first_await_only "2025-07-16T12:00:00Z"
                  AuthSample.signed_in AuthSample.session1) eq_refl).
Defined.

(** ** The route guard *)

(** X20. The guard shows the pages exactly when a user is known and
    [loading] is false.  So a profile refresh takes the pages down while
    its fetch is in flight and brings them back when it ends, whatever the
    outcome; a sign-out takes them down too, and afterwards redirects to
    the sign-in page if it was acknowledged and shows the pages again if it
    was not. *)
Theorem pages_hidden_while_session_manager_is_busy
    (w : Auth.World) (u : User.t) (location : string) (answer : Auth.Answer) :
  Auth.user (Auth.cells w) = Some u →
  let refresh := Auth.refreshProfile (Auth.user (Auth.cells w)) in
  ProtectedRoute (Auth.cells (Auth.run refresh w)) location = RouteView.FullPageLoader ∧
  ProtectedRoute (Auth.cells (Auth.complete refresh answer w)) location
  = RouteView.Children ∧
  ProtectedRoute (Auth.cells (Auth.run Auth.signOut w)) location
  = RouteView.FullPageLoader ∧
  ProtectedRoute (Auth.cells (Auth.complete Auth.signOut answer w)) location
  = match answer Auth.authSignOut with
    | Auth.Returned (Success _) => RouteView.Navigate "/auth" location
    | _ => RouteView.Children
    end.
Proof.
  intros Hu refresh. subst refresh. rewrite Hu. unfold ProtectedRoute. cbn.
  split; [done|]. split; [|split; [done|]].
  - destruct (answer (Auth.selectProfile (User.id u))) as [[data|message]|e]; cbn;
      rewrite ?Hu; try done.
    destruct (String.eqb _ _); cbn; by rewrite Hu.
  - destruct (answer Auth.authSignOut) as [[d|message]|[message|]]; cbn;
      by rewrite ?Hu.
Qed.

Lemma pages_hidden_while_session_manager_is_busy_witness :
  ProtectedRoute
    (Auth.cells (Auth.run (Auth.refreshProfile (Some Sample.user1))
                   (Auth.complete Auth.initializeAuth AuthSample.signed_in
                      AuthSample.started)))
    "/emergency"
  = RouteView.FullPageLoader.
Proof.
  exact (proj1 (pages_hidden_while_session_manager_is_busy
                  (Auth.complete Auth.initializeAuth AuthSample.signed_in
                     AuthSample.started)
                  Sample.user1 "/emergency" AuthSample.signed_in eq_refl)).
Defined.

(** X21. Once initialization has ended the provider renders its children,
    and the guard shows the pages exactly when [getSession] returned a
    session; in every other case it redirects to the sign-in page,
    remembering the location. *)
Theorem pages_after_initialization_iff_session
    (answer : Auth.Answer) (w : Auth.World) (location : string) :
  Auth.mounted w = true →
  Auth.user (Auth.cells w) = None →
  let c' := Auth.cells (Auth.complete Auth.initializeAuth answer w) in
  Auth.AuthProvider c' = Some c' ∧
  ProtectedRoute c' location
  = match answer Auth.getSession with
    | Auth.Returned (Success (Some _)) => RouteView.Children
    | _ => RouteView.Navigate "/auth" location
    end.
Proof.
  intros Hm Hu c'. subst c'. unfold ProtectedRoute, Auth.AuthProvider. cbn.
  destruct (answer Auth.getSession) as [[[s|]|message]|e]; cbn; rewrite ?Hm; cbn;
    rewrite ?Hu; try done.
  destruct (answer (Auth.selectProfile (User.id (Session.user s))))
    as [[data|message]|e]; cbn; rewrite ?Hm; cbn; try done.
  destruct (String.eqb _ _); cbn; rewrite ?Hm; by cbn.
Qed.

Lemma pages_after_initialization_iff_session_witness :
  ProtectedRoute
    (Auth.cells (Auth.complete Auth.initializeAuth AuthSample.signed_in AuthSample.started))
    "/emergency"
  = RouteView.Children.
Proof.
  exact (proj2 (pages_after_initialization_iff_session AuthSample.signed_in
                  AuthSample.started "/emergency" eq_refl eq_refl)).
Defined.

(** X22. The evacuation page is rendered only under the guard, hence only
    with a known user: whenever the guard shows the pages, mounting the
    page subscribes the channel and starts the load, which shows the
    spinner and sends the alerts fetch. *)
Theorem guarded_mount_always_starts_the_load (auth : Auth.Cells) (location : string) :
  ProtectedRoute auth location = RouteView.Children →
  ∃ u, Auth.user auth = Some u ∧ Auth.loading auth = false ∧
       let w := mount (initialWorld (Auth.user auth)) in
       sent w = [select_alerts] ∧
       length (pending w) = 1 ∧
       is_Some (channel w) ∧
       alertsPanel (view w) = Panel.Spinner.
Proof.
  unfold ProtectedRoute. destruct (Auth.loading auth); [done|].
  destruct (Auth.user auth) as [u|]; [|done]. intros _.
  exists u. cbn. repeat split. by eexists.
Qed.

Lemma guarded_mount_always_starts_the_load_witness :
  ∃ u, Some Sample.user1 = Some u ∧ false = false ∧
       let w := mount (initialWorld (Some Sample.user1)) in
       sent w = [select_alerts] ∧
       length (pending w) = 1 ∧
       is_Some (channel w) ∧
       alertsPanel (view w) = Panel.Spinner.
Proof.
  exact (guarded_mount_always_starts_the_load
           {| Auth.session := Some AuthSample.session1; Auth.user := Some Sample.user1;
              Auth.profile := None; Auth.loading := false; Auth.error := None;
              Auth.initialized := true |}
           "/emergency" eq_refl).
Defined.
